(** * Peer: the wire-protocol session layer over a NoiseSocket

    A shallow embedding of the [Peer] class (lib/peer.ts of the wire
    package): its fields, its three public methods ([connect],
    [sendMessage], [disconnect]), the five socket handlers and the two
    frame processors, followed by the properties of the session state
    machine.  The [TxBuilder] class of the bitcoin package is embedded
    after it, in a module of its own, and its properties come last.

    Modelling conventions.
    - A method is a computation in the monad [M]: it reads and mutates
      the Peer object, leaves a chronological trace of the calls it makes
      on its collaborators, and completes normally or by a thrown error.
      A throw keeps the mutations and the trace made before it, as in
      JavaScript.
    - The collaborators (listeners registered on the emitter, the
      NoiseSocket, the PingPongState, the logger) are not part of the
      class: a call on one of them is recorded in the trace and returns
      normally.  What a listener does when it runs is outside the model.
    - [MessageFactory.deserialize], [serialize] and the boolean returned
      by [socket.write] are parameters.
    - [messageCounter] is a JavaScript number used as an integer count;
      it is modelled by [Z]. *)

From Stdlib Require Import ZArith List String Bool Lia Permutation.
From Stdlib Require Import Strings.Byte.
From ExtLib Require Import Structures.Monad Structures.MonadState
  Structures.MonadExc.
Import ListNotations.
Import MonadNotation.
Local Open Scope string_scope.
Local Open Scope list_scope.
Local Open Scope Z_scope.
Local Open Scope monad_scope.

(** ** Data *)

Definition Buffer := list byte.

(** Modelled from the spec: the [PeerState] enum (peer-state.ts is not
    among the sources).  The class comment of [Peer] lists [pending],
    [awaiting_peer_init] and [ready]; the specification's data model adds
    [Closed].  The fourth constructor is kept so that statements about a
    closed state can be written; no code of the class assigns it. *)
Inductive PeerState : Type :=
| pending
| awaiting_peer_init
| ready
| closed.

Definition PeerState_eqb (a b : PeerState) : bool :=
  match a, b with
  | pending, pending => true
  | awaiting_peer_init, awaiting_peer_init => true
  | ready, ready => true
  | closed, closed => true
  | _, _ => false
  end.

(** A thrown JavaScript error: its constructor name and its message. *)
Record JsError : Type := mkJsError {
  err_name : string;
  err_message : string
}.

Definition Error (msg : string) : JsError := mkJsError "Error" msg.
Definition TypeError (msg : string) : JsError := mkJsError "TypeError" msg.

(** The init message, with the five flags that [_processPeerInitMessage]
    reads for its log line (messages/init-message.ts is not among the
    sources). *)
Record InitMessage : Type := mkInitMessage {
  localInitialRoutingSync : bool;
  localDataLossProtect : bool;
  localGossipQueries : bool;
  localGossipQueriesEx : bool;
  localUpfrontShutdownScript : bool
}.

(** A decoded wire message: an [InitMessage] or a message of another
    class, kept as its type code and payload. *)
Inductive IWireMessage : Type :=
| MInit (i : InitMessage)
| MOther (type : Z) (payload : Buffer).

(** [m instanceof InitMessage], together with the cast. *)
Definition asInitMessage (m : IWireMessage) : option InitMessage :=
  match m with
  | MInit i => Some i
  | MOther _ _ => None
  end.

(** How a call completes. *)
Inductive Completion (A : Type) : Type :=
| Returns (a : A)
| Throws (e : JsError).
Arguments Returns {A} a.
Arguments Throws {A} e.

(** The arguments of [connect]; [port] may be left out. *)
Record PeerConnectOptions : Type := mkPeerConnectOptions {
  ls : Buffer;
  rpk : Buffer;
  host : string;
  port : option Z
}.

(** The socket returned by [noise.connect]. *)
Record NoiseSocket : Type := mkNoiseSocket {
  sock_ls : Buffer;
  sock_rpk : Buffer;
  sock_host : string;
  sock_port : Z
}.

(** Handles on the two helper objects; their insides are not modelled. *)
Inductive PingPongState : Type := mkPingPongState.
Inductive Logger : Type := mkLogger (area : string).

(** The events of the emitter. *)
Inductive Event : Type :=
| EvClose
| EvEnd
| EvError (err : JsError)
| EvMessage (m : IWireMessage)
| EvOpen
| EvRawMessage (raw : Buffer)
| EvReady
| EvSending (buf : Buffer).

(** What a method does to the outside, in order. *)
Inductive Effect : Type :=
| Emit (e : Event)
| NoiseConnect (s : NoiseSocket)
| SocketWrite (buf : Buffer)
| SocketEnd
| PingPongStart
| PingPongOnMessage (m : IWireMessage)
| PingPongOnDisconnecting
| LoggerInfo (m : IWireMessage).

(** The fields of a Peer object. *)
Record Peer : Type := mkPeer {
  state : PeerState;
  socket : option NoiseSocket;
  messageCounter : Z;
  pingPongState : option PingPongState;
  logger : option Logger;
  remoteInit : option InitMessage;
  localInit : option InitMessage;
  initMessageFactory : unit -> InitMessage
}.

Definition set_state (v : PeerState) (p : Peer) : Peer :=
  mkPeer v (socket p) (messageCounter p) (pingPongState p) (logger p)
         (remoteInit p) (localInit p) (initMessageFactory p).
Definition set_socket (v : option NoiseSocket) (p : Peer) : Peer :=
  mkPeer (state p) v (messageCounter p) (pingPongState p) (logger p)
         (remoteInit p) (localInit p) (initMessageFactory p).
Definition set_messageCounter (v : Z) (p : Peer) : Peer :=
  mkPeer (state p) (socket p) v (pingPongState p) (logger p)
         (remoteInit p) (localInit p) (initMessageFactory p).
Definition set_logger (v : option Logger) (p : Peer) : Peer :=
  mkPeer (state p) (socket p) (messageCounter p) (pingPongState p) v
         (remoteInit p) (localInit p) (initMessageFactory p).
Definition set_remoteInit (v : option InitMessage) (p : Peer) : Peer :=
  mkPeer (state p) (socket p) (messageCounter p) (pingPongState p) (logger p)
         v (localInit p) (initMessageFactory p).
Definition set_localInit (v : option InitMessage) (p : Peer) : Peer :=
  mkPeer (state p) (socket p) (messageCounter p) (pingPongState p) (logger p)
         (remoteInit p) v (initMessageFactory p).

(** ** The monad of methods *)

Definition Outcome (A : Type) : Type := (Completion A * Peer * list Effect)%type.

Definition M (A : Type) : Type := Peer -> Outcome A.

Definition completion {A} (o : Outcome A) : Completion A := fst (fst o).
Definition after {A} (o : Outcome A) : Peer := snd (fst o).
Definition effects {A} (o : Outcome A) : list Effect := snd o.

Definition M_ret {A} (a : A) : M A := fun p => (Returns a, p, []).

Definition M_bind {A B} (c : M A) (k : A -> M B) : M B :=
  fun p =>
    match c p with
    | (Returns a, p1, t1) =>
        match k a p1 with
        | (r, p2, t2) => (r, p2, t1 ++ t2)
        end
    | (Throws e, p1, t1) => (Throws e, p1, t1)
    end.

(** [try { c } catch (err) { h err }] *)
Definition M_catch {A} (c : M A) (h : JsError -> M A) : M A :=
  fun p =>
    match c p with
    | (Returns a, p1, t1) => (Returns a, p1, t1)
    | (Throws e, p1, t1) =>
        match h e p1 with
        | (r, p2, t2) => (r, p2, t1 ++ t2)
        end
    end.

#[global] Instance Monad_M : Monad M :=
  {| ret := @M_ret; bind := @M_bind |}.

#[global] Instance MonadState_M : MonadState Peer M :=
  {| get := fun p => (Returns p, p, []);
     put := fun q _ => (Returns tt, q, []) |}.

#[global] Instance MonadExc_M : MonadExc JsError M :=
  {| raise := fun _ e p => (Throws e, p, []);
     catch := @M_catch |}.

Definition tell (t : list Effect) : M unit := fun p => (Returns tt, p, t).

Definition update (f : Peer -> Peer) : M unit := fun p => (Returns tt, f p, []).

(** [this.emit(...)] *)
Definition emit (e : Event) : M unit := tell [Emit e].

(** [assert.ok(b, err)]: throws [err] itself when [b] is false. *)
Definition assert_ok (b : bool) (err : JsError) : M unit :=
  if b then ret tt else raise err.

(** The outcome of a call made outside the class is brought into [M]. *)
Definition call {A} (c : Completion A) : M A :=
  match c with
  | Returns a => ret a
  | Throws e => raise e
  end.

(** Reading a property of [undefined]. *)
Definition undefined_access (prop : string) : JsError :=
  TypeError ("Cannot read property " ++ prop ++ " of undefined")%string.

Section PeerClass.

(** [MessageFactory.deserialize]: returns a message, returns nothing
    ([undefined]), or throws. *)
Variable deserialize : Buffer -> Completion (option IWireMessage).

(** [m.serialize()]. *)
Variable serialize : IWireMessage -> Buffer.

(** The boolean that [socket.write] answers. *)
Variable writeAccepted : Buffer -> bool.

(** [this.socket.write(buf)] *)
Definition socket_write (buf : Buffer) : M bool :=
  p <- get ;;
  match socket p with
  | Some _ => tell [SocketWrite buf] ;; ret (writeAccepted buf)
  | None => raise (undefined_access "write")
  end.

(** [this.socket.end()] *)
Definition socket_end : M unit :=
  p <- get ;;
  match socket p with
  | Some _ => tell [SocketEnd]
  | None => raise (undefined_access "end")
  end.

(** [this.pingPongState.start()] and [this.pingPongState.onMessage(m)] *)
Definition pingPong_call (prop : string) (e : Effect) : M unit :=
  p <- get ;;
  match pingPongState p with
  | Some _ => tell [e]
  | None => raise (undefined_access prop)
  end.

(** [new Peer(initMessageFactory)] *)
Definition newPeer (f : unit -> InitMessage) : Peer :=
  {| state := pending;
     socket := None;
     messageCounter := 0;
     pingPongState := Some mkPingPongState;
     logger := None;
     remoteInit := None;
     localInit := None;
     initMessageFactory := f |}.

(** [connect({ ls, rpk, host, port = 9735 })].  The label that the
    logger derives from [rpk] is for display only and is left out. *)
Definition connect (o : PeerConnectOptions) : M unit :=
  update (set_logger (Some (mkLogger "PEER"))) ;;
  let s := mkNoiseSocket (ls o) (rpk o) (host o)
                         (match port o with Some n => n | None => 9735 end) in
  tell [NoiseConnect s] ;;
  update (set_socket (Some s)).

Definition sendMessage (m : IWireMessage) : M bool :=
  p <- get ;;
  assert_ok (PeerState_eqb (state p) ready) (Error "Peer is not ready") ;;
  let buf := serialize m in
  emit (EvSending buf) ;;
  socket_write buf.

Definition disconnect : M unit :=
  socket_end.

Definition _sendInitMessage : M unit :=
  p <- get ;;
  let msg := initMessageFactory p tt in
  update (set_localInit (Some msg)) ;;
  let payload := serialize (MInit msg) in
  emit (EvSending payload) ;;
  _ <- socket_write payload ;;
  ret tt.

Definition _onSocketReady : M unit :=
  update (set_state awaiting_peer_init) ;;
  emit EvOpen ;;
  _sendInitMessage.

Definition _onSocketEnd : M unit :=
  emit EvEnd.

Definition _onSocketClose : M unit :=
  p <- get ;;
  match pingPongState p with
  | Some _ => tell [PingPongOnDisconnecting]
  | None => ret tt
  end ;;
  emit EvClose.

Definition _onSocketError (err : JsError) : M unit :=
  emit (EvError err).

(** The log line reads five properties of [m]: on [undefined] the
    first read throws; on a message of another class they are
    [undefined] and the line is still written. *)
Definition log_peer_initialized (m : option IWireMessage) : M unit :=
  p <- get ;;
  match logger p with
  | Some _ =>
      match m with
      | Some m' => tell [LoggerInfo m']
      | None => raise (undefined_access "localInitialRoutingSync")
      end
  | None => ret tt
  end.

Definition _processPeerInitMessage (raw : Buffer) : M unit :=
  m <- call (deserialize raw) ;;
  log_peer_initialized m ;;
  match match m with Some m' => asInitMessage m' | None => None end with
  | None => raise (Error "Expecting InitMessage")
  | Some i =>
      update (set_remoteInit (Some i)) ;;
      pingPong_call "start" PingPongStart ;;
      update (set_state ready) ;;
      emit EvReady
  end.

Definition _processMessage (raw : Buffer) : M unit :=
  update (fun p => set_messageCounter (messageCounter p + 1) p) ;;
  emit (EvRawMessage raw) ;;
  m <- call (deserialize raw) ;;
  match m with
  | Some m' =>
      pingPong_call "onMessage" (PingPongOnMessage m') ;;
      emit (EvMessage m')
  | None => ret tt
  end.

Definition _onSocketData (raw : Buffer) : M unit :=
  catch
    (p <- get ;;
     if PeerState_eqb (state p) awaiting_peer_init
     then _processPeerInitMessage raw
     else _processMessage raw)
    (fun err =>
       socket_end ;;
       emit (EvError err)).

End PeerClass.

(** ** Driving a Peer *)

(** What can happen to a Peer: a call of a public method, or a signal of
    the socket that [connect] bound to a handler. *)
Inductive Op : Type :=
| CallConnect (o : PeerConnectOptions)
| CallSendMessage (m : IWireMessage)
| CallDisconnect
| SigReady
| SigEnd
| SigClose
| SigError (err : JsError)
| SigData (raw : Buffer).

Definition is_data (op : Op) : bool :=
  match op with
  | SigData _ => true
  | _ => false
  end.

(** The handlers are registered on the socket by [connect]: without a
    socket no signal reaches the Peer. *)
Definition signal (h : M unit) : M unit :=
  fun p =>
    match socket p with
    | Some _ => h p
    | None => (Returns tt, p, [])
    end.

Section Driver.

Variable deserialize : Buffer -> Completion (option IWireMessage).
Variable serialize : IWireMessage -> Buffer.
Variable writeAccepted : Buffer -> bool.

Definition perform (op : Op) : M unit :=
  match op with
  | CallConnect o => connect o
  | CallSendMessage m => _ <- sendMessage serialize writeAccepted m ;; ret tt
  | CallDisconnect => disconnect
  | SigReady => signal (_onSocketReady serialize writeAccepted)
  | SigEnd => signal _onSocketEnd
  | SigClose => signal _onSocketClose
  | SigError err => signal (_onSocketError err)
  | SigData raw => signal (_onSocketData deserialize raw)
  end.

(** A sequence of operations on one Peer object.  An error thrown by a
    public method goes to its caller; the object lives on. *)
Fixpoint run (ops : list Op) (p : Peer) : Peer * list Effect :=
  match ops with
  | [] => (p, [])
  | op :: rest =>
      let o := perform op p in
      let r := run rest (after o) in
      (fst r, effects o ++ snd r)
  end.

End Driver.

(** ** Reading a trace *)

Definition is_ready_event (x : Effect) : bool :=
  match x with
  | Emit EvReady => true
  | _ => false
  end.


Definition is_log (x : Effect) : bool :=
  match x with
  | LoggerInfo _ => true
  | _ => false
  end.

Definition count (f : Effect -> bool) (t : list Effect) : nat :=
  List.length (filter f t).


(** ** An instance for concrete runs

    A two-byte type prefix selects the message: 16 is init, 18 and 19
    are ping and pong, any other type is unknown to the factory, which
    then returns nothing; a frame too short to hold the prefix makes it
    throw. *)

Definition demo_init : InitMessage :=
  mkInitMessage false true true false false.

Definition demo_deserialize (raw : Buffer) : Completion (option IWireMessage) :=
  match raw with
  | x00 :: x10 :: _ => Returns (Some (MInit demo_init))
  | x00 :: x12 :: rest => Returns (Some (MOther 18 rest))
  | x00 :: x13 :: rest => Returns (Some (MOther 19 rest))
  | _ :: _ :: _ => Returns None
  | _ => Throws (mkJsError "RangeError" "Index out of range")
  end.

Definition demo_serialize (m : IWireMessage) : Buffer :=
  match m with
  | MInit _ => [x00; x10; x00; x00; x00; x01; x0a]
  | MOther 18 payload => x00 :: x12 :: payload
  | MOther _ payload => x00 :: x13 :: payload
  end.

Definition demo_writeAccepted (buf : Buffer) : bool := true.

Definition demo_options : PeerConnectOptions :=
  mkPeerConnectOptions [x01] [x02; x03] "127.0.0.1" None.

Definition init_frame : Buffer := [x00; x10; x00; x00; x00; x01; x0a].
Definition ping_frame : Buffer := [x00; x12; x00; x01; x00; x00].
Definition unknown_frame : Buffer := [x7f; x7f; x00].
Definition short_frame : Buffer := [x00].

(** A Peer just constructed, then connected, then after the socket's
    [ready], then after the remote init message. *)
Definition demo_new : Peer := newPeer (fun _ => demo_init).

Definition demo_connected : Peer :=
  after (connect demo_options demo_new).

Definition demo_awaiting : Peer :=
  after (_onSocketReady demo_serialize demo_writeAccepted demo_connected).

Definition demo_ready : Peer :=
  after (_onSocketData demo_deserialize init_frame demo_awaiting).

(** The Peer that awaited the remote init message and was sent a ping
    instead. *)
Definition demo_rejected : Peer :=
  after (_onSocketData demo_deserialize ping_frame demo_awaiting).

(** The frame does not decode as an init message: the factory throws,
    returns nothing, or returns a message of another class. *)
Definition decoded_init (c : Completion (option IWireMessage)) : option InitMessage :=
  match c with
  | Returns (Some m) => asInitMessage m
  | Returns None => None
  | Throws _ => None
  end.


(** ** More ways to read a run *)

Definition is_rawmessage_event (x : Effect) : bool :=
  match x with
  | Emit (EvRawMessage _) => true
  | _ => false
  end.

Definition is_connect (op : Op) : bool :=
  match op with
  | CallConnect _ => true
  | _ => false
  end.

Definition is_sig_ready (op : Op) : bool :=
  match op with
  | SigReady => true
  | _ => false
  end.

(** The contract of the transport, followed along a sequence of
    operations.  [c] says that [connect] has made a socket, [r] that the
    socket has signalled [ready].  A socket signals [ready] only once it
    exists, and delivers no frame before it has signalled [ready]: the
    handshake comes first, and only then are there decrypted frames. *)
Definition transport_step (c r : bool) (op : Op) : option (bool * bool) :=
  match op with
  | CallConnect _ => Some (true, r)
  | SigReady => if c then Some (c, true) else None
  | SigData _ => if r then Some (c, r) else None
  | _ => Some (c, r)
  end.

Fixpoint transport_contract (c r : bool) (ops : list Op) : bool :=
  match ops with
  | [] => true
  | op :: rest =>
      match transport_step c r op with
      | Some (c', r') => transport_contract c' r' rest
      | None => false
      end
  end.

(** What the flags of the contract say about the Peer. *)
Definition contract_inv (c r : bool) (p : Peer) : Prop :=
  state p <> closed
  /\ (c = true -> socket p <> None)
  /\ (r = true -> c = true)
  /\ (r = true -> state p <> pending).

(** The effect that has to come immediately before another one: the
    [sending] event with the same bytes before a write to the socket,
    the hand-over to the ping-pong machine before the [message] event of
    the same message. *)
Definition herald (x : Effect) : option Effect :=
  match x with
  | SocketWrite buf => Some (Emit (EvSending buf))
  | Emit (EvMessage m) => Some (PingPongOnMessage m)
  | _ => None
  end.

(** Every effect of [t] that has a herald is immediately preceded by it;
    [prev] is the effect before the head of [t], if any. *)
Fixpoint heralded (prev : option Effect) (t : list Effect) : Prop :=
  match t with
  | [] => True
  | x :: t' =>
      match herald x with
      | Some y => prev = Some y
      | None => True
      end
      /\ heralded (Some x) t'
  end.

(** The bytes of the first write to the socket. *)
Fixpoint first_write (t : list Effect) : option Buffer :=
  match t with
  | [] => None
  | SocketWrite buf :: _ => Some buf
  | _ :: t' => first_write t'
  end.

(** What one decoded frame leaves in the trace of a Peer in [ready]. *)
Definition dispatched (raw : Buffer) (m : IWireMessage) : list Effect :=
  [Emit (EvRawMessage raw); PingPongOnMessage m; Emit (EvMessage m)].

(** The fields of a Peer built by [new Peer(f)] and then driven by any
    operations hang together as follows. *)
Definition well_formed (f : unit -> InitMessage) (p : Peer) : Prop :=
  initMessageFactory p = f
  /\ pingPongState p <> None
  /\ state p <> closed
  /\ (state p <> pending -> socket p <> None /\ localInit p = Some (f tt))
  /\ (state p = ready -> remoteInit p <> None)
  /\ 0 <= messageCounter p.

(** The error that a rejected init frame is reported with. *)
Definition init_rejection (c : Completion (option IWireMessage))
           (l : option Logger) : JsError :=
  match c, l with
  | Throws e, _ => e
  | Returns None, Some _ => undefined_access "localInitialRoutingSync"
  | Returns None, None => Error "Expecting InitMessage"
  | Returns (Some _), _ => Error "Expecting InitMessage"
  end.

(** * TxBuilder: building and signing a transaction

    The class [TxBuilder] of the bitcoin package.  The classes it works
    with ([OutPoint], [Script], [TxIn], [TxOut], [TxLockTime], [Tx], ...)
    and the bufio and crypto packages are not among the sources: their
    types and functions are the fields of two classes of parameters, and
    their calls return normally.  A [BufferWriter] is the sequence of
    bytes written so far.  [TxIn] is a record of the four properties that
    the builder reads and assigns.

    The getters [inputs] and [outputs] sort a copy of the array.  The
    copy holds the same objects: an input is followed through the sort
    by its position in [_inputs], and an assignment to a property of
    [this.inputs[i]] lands on that position. *)

Module TxBuilder.

(** An element of a script: an opcode or a piece of data. *)
Inductive ScriptCmd : Type :=
| OpCode (op : Z)
| Data (b : Buffer).

Class Types : Type := {
  OutPoint : Type;
  Script : Type;
  TxInSequence : Type;
  TxLockTime : Type;
  Value : Type;
  Witness : Type;
  TxOut : Type;
  Tx : Type;
  Signature : Type
}.

Record TxIn `{Types} : Type := mkTxIn {
  outpoint : OutPoint;
  scriptSig : Script;
  sequence : TxInSequence;
  witness : list Witness
}.
Arguments mkTxIn {_} _ _ _ _.

Class Lib `{Types} : Type := {
  (** [new Script(...cmds)] and [script.cmds] *)
  Script_new : list ScriptCmd -> Script;
  Script_cmds : Script -> list ScriptCmd;
  (** [new TxIn(outpoint, scriptSig, sequence)], the last two optional *)
  TxIn_new : OutPoint -> option Script -> option TxInSequence -> TxIn;
  TxIn_serialize : TxIn -> Buffer;
  TxIn_clone : TxIn -> TxIn;
  (** [new TxOut(value, scriptPubKey)] *)
  TxOut_new : Value -> Script -> TxOut;
  TxOut_scriptPubKey : TxOut -> Script;
  TxOut_serialize : TxOut -> Buffer;
  TxOut_clone : TxOut -> TxOut;
  (** [new TxLockTime()] *)
  TxLockTime_new : TxLockTime;
  TxLockTime_serialize : TxLockTime -> Buffer;
  TxLockTime_clone : TxLockTime -> TxLockTime;
  (** [new Tx(version, inputs, outputs, locktime)] *)
  Tx_new : Z -> list TxIn -> list TxOut -> TxLockTime -> Tx;
  Tx_serialize : Tx -> Buffer;
  (** the bytes that [writer.writeUInt32LE] and [writer.writeVarInt] add *)
  UInt32LE : Z -> Buffer;
  VarInt : Z -> Buffer;
  (** the crypto package: [hash256], [sign(hash, key)], [sigToDER] *)
  hash256 : Buffer -> Buffer;
  ecdsa_sign : Buffer -> Buffer -> Signature;
  sigToDER : Signature -> Buffer
}.

(** Assigning to a property of [undefined]. *)
Definition undefined_assign (prop : string) : JsError :=
  TypeError ("Cannot set property " ++ prop ++ " of undefined")%string.

(** [a[i]] for a number [i]: [undefined] outside the array. *)
Definition array_get {A} (a : list A) (i : Z) : option A :=
  if 0 <=? i then nth_error a (Z.to_nat i) else None.

(** The array with [f] applied to the element at position [k]. *)
Fixpoint list_update {A} (k : nat) (f : A -> A) (l : list A) : list A :=
  match l, k with
  | [], _ => []
  | x :: xs, O => f x :: xs
  | x :: xs, S k' => x :: list_update k' f xs
  end.

(** [Array.prototype.sort(cmp)]: a stable sort, [a] before [b] when
    [cmp(a, b)] is negative and after when it is positive.  For a
    consistent comparator the result of a stable sort is determined; it
    is computed here by insertion. *)
Fixpoint sort_insert {A} (cmp : A -> A -> Z) (x : A) (l : list A) : list A :=
  match l with
  | [] => [x]
  | y :: ys => if cmp x y <=? 0 then x :: y :: ys else y :: sort_insert cmp x ys
  end.

Fixpoint Array_sort {A} (cmp : A -> A -> Z) (l : list A) : list A :=
  match l with
  | [] => []
  | x :: xs => sort_insert cmp x (Array_sort cmp xs)
  end.

(** The objects of an array, each with its position. *)
Definition tagged {A} (l : list A) : list (nat * A) :=
  combine (seq 0 (List.length l)) l.

(** The object at position [k] changed by [f], seen on the tagged
    objects. *)
Definition retag {A} (k : nat) (f : A -> A) (r : nat * A) : nat * A :=
  (fst r, if Nat.eqb (fst r) k then f (snd r) else snd r).

Section Class.

Context {T : Types} {L : Lib}.

Definition with_scriptSig (s : Script) (v : TxIn) : TxIn :=
  mkTxIn (outpoint v) s (sequence v) (witness v).

Definition with_witness (w : list Witness) (v : TxIn) : TxIn :=
  mkTxIn (outpoint v) (scriptSig v) (sequence v) w.

Record Builder : Type := mkBuilder {
  inputSorter : TxIn -> TxIn -> Z;
  outputSorter : TxOut -> TxOut -> Z;
  _version : Z;
  _locktime : TxLockTime;
  _inputs : list TxIn;
  _outputs : list TxOut
}.

Definition set_version (v : Z) (b : Builder) : Builder :=
  mkBuilder (inputSorter b) (outputSorter b) v (_locktime b)
            (_inputs b) (_outputs b).
Definition set_locktime (v : TxLockTime) (b : Builder) : Builder :=
  mkBuilder (inputSorter b) (outputSorter b) (_version b) v
            (_inputs b) (_outputs b).
Definition set_inputs (v : list TxIn) (b : Builder) : Builder :=
  mkBuilder (inputSorter b) (outputSorter b) (_version b) (_locktime b)
            v (_outputs b).
Definition set_outputs (v : list TxOut) (b : Builder) : Builder :=
  mkBuilder (inputSorter b) (outputSorter b) (_version b) (_locktime b)
            (_inputs b) v.

(** [new TxBuilder(inputSorter, outputSorter)], both defaulting to
    [() => 0]. *)
Definition newTxBuilder (inputSorter : option (TxIn -> TxIn -> Z))
           (outputSorter : option (TxOut -> TxOut -> Z)) : Builder :=
  {| inputSorter := match inputSorter with Some c => c | None => fun _ _ => 0 end;
     outputSorter := match outputSorter with Some c => c | None => fun _ _ => 0 end;
     _version := 1;
     _locktime := TxLockTime_new;
     _inputs := [];
     _outputs := [] |}.

Definition version (b : Builder) : Z := _version b.
Definition locktime (b : Builder) : TxLockTime := _locktime b.

(** The sorted copy of [_inputs], each object with its position in
    [_inputs]. *)
Definition inputs_refs (b : Builder) : list (nat * TxIn) :=
  Array_sort (fun x y => inputSorter b (snd x) (snd y)) (tagged (_inputs b)).

Definition inputs (b : Builder) : list TxIn :=
  map snd (inputs_refs b).

Definition outputs (b : Builder) : list TxOut :=
  Array_sort (outputSorter b) (_outputs b).

Definition addInput (o : OutPoint) (sequence : option TxInSequence)
           (scriptSig : option Script) (b : Builder) : Builder :=
  set_inputs (_inputs b ++ [TxIn_new o scriptSig sequence]) b.

(** [this.inputs[0].scriptSig = scriptSig]: the parameter [index] is
    not used. *)
Definition setScriptSig (index : Z) (s : Script) (b : Builder)
  : Completion unit * Builder :=
  match array_get (inputs_refs b) 0 with
  | Some (k, _) => (Returns tt, set_inputs (list_update k (with_scriptSig s) (_inputs b)) b)
  | None => (Throws (undefined_assign "scriptSig"), b)
  end.

(** [this.inputs[index].witness = witness] *)
Definition setWitness (index : Z) (w : list Witness) (b : Builder)
  : Completion unit * Builder :=
  match array_get (inputs_refs b) index with
  | Some (k, _) => (Returns tt, set_inputs (list_update k (with_witness w) (_inputs b)) b)
  | None => (Throws (undefined_assign "witness"), b)
  end.

Definition addOutput (value : Value) (scriptPubKey : Script) (b : Builder) : Builder :=
  set_outputs (_outputs b ++ [TxOut_new value scriptPubKey]) b.

(** The script committed to for the signatory input: the redeem script
    if one is given, else the commands of the previous output's
    [scriptPubKey]. *)
Definition commitScript (prevout : TxOut) (redeemScript : option Buffer) : Script :=
  match redeemScript with
  | Some r => Script_new [Data r]
  | None => Script_new (Script_cmds (TxOut_scriptPubKey prevout))
  end.

(** The loop over the inputs in [hashAll], from index [i] on, with the
    writer [w]: an input other than the signatory one is passed over by
    [continue]. *)
Fixpoint hashAll_inputs (i : Z) (rest : list TxIn) (input : Z)
         (prevout : TxOut) (redeemScript : option Buffer) (w : Buffer) : Buffer :=
  match rest with
  | [] => w
  | vin :: rest' =>
      hashAll_inputs (i + 1) rest' input prevout redeemScript
        (if i =? input
         then w ++ TxIn_serialize
                     (TxIn_new (outpoint vin)
                               (Some (commitScript prevout redeemScript))
                               (Some (sequence vin)))
         else w)
  end.

(** The bytes in the writer of [hashAll] when it is hashed. *)
Definition hashAll_writer (input : Z) (prevout : TxOut)
           (redeemScript : option Buffer) (b : Builder) : Buffer :=
  let w := UInt32LE (version b) in
  let ins := inputs b in
  let w := w ++ VarInt (Z.of_nat (List.length ins)) in
  let w := hashAll_inputs 0 ins input prevout redeemScript w in
  let outs := outputs b in
  let w := w ++ VarInt (Z.of_nat (List.length outs)) in
  let w := fold_left (fun w vout => w ++ TxOut_serialize vout) outs w in
  let w := w ++ TxLockTime_serialize (locktime b) in
  let w := w ++ UInt32LE 1 in
  w.

Definition hashAll (input : Z) (prevout : TxOut)
           (redeemScript : option Buffer) (b : Builder) : Buffer :=
  hash256 (hashAll_writer input prevout redeemScript b).

Definition sign (privateKey : Buffer) (input : Z) (prevout : TxOut)
           (redeemScript : option Buffer) (b : Builder) : Buffer :=
  let hash := hashAll input prevout redeemScript b in
  let sig := ecdsa_sign hash privateKey in
  let der := sigToDER sig in
  der ++ [x01].

Definition toTx (b : Builder) : Tx :=
  Tx_new (version b)
         (map TxIn_clone (inputs b))
         (map TxOut_clone (outputs b))
         (TxLockTime_clone (locktime b)).

Definition serialize (b : Builder) : Buffer :=
  Tx_serialize (toTx b).

(** The comparator cannot tell an input from the same input with
    another [scriptSig], or with another witness. *)
Definition blind_to_scriptSig (cmp : TxIn -> TxIn -> Z) : Prop :=
  forall s x y,
    cmp (with_scriptSig s x) y = cmp x y /\ cmp x (with_scriptSig s y) = cmp x y.

Definition blind_to_witness (cmp : TxIn -> TxIn -> Z) : Prop :=
  forall w x y,
    cmp (with_witness w x) y = cmp x y /\ cmp x (with_witness w y) = cmp x y.

(** The part of the signatory input that [hashAll] reads. *)
Definition same_signatory (a b : option TxIn) : Prop :=
  match a, b with
  | Some v1, Some v2 => outpoint v1 = outpoint v2 /\ sequence v1 = sequence v2
  | None, None => True
  | _, _ => False
  end.

End Class.

End TxBuilder.

(** ** An instance of the bitcoin classes for concrete runs

    Outpoints are a transaction id and an index, scripts are lists of
    commands, transactions are kept serialized; the hash is the identity,
    so that a hash shows what was hashed. *)

Definition byte_of_Z (z : Z) : byte :=
  match Byte.of_N (Z.to_N (z mod 256)) with
  | Some b => b
  | None => x00
  end.

Fixpoint le_bytes (n : nat) (z : Z) : Buffer :=
  match n with
  | O => []
  | S n' => byte_of_Z z :: le_bytes n' (z / 256)
  end.

Definition demo_VarInt (z : Z) : Buffer :=
  if z <? 253 then [byte_of_Z z]
  else if z <? 65536 then xfd :: le_bytes 2 z
  else if z <? 4294967296 then xfe :: le_bytes 4 z
  else xff :: le_bytes 8 z.

Definition demo_cmd_bytes (c : TxBuilder.ScriptCmd) : Buffer :=
  match c with
  | TxBuilder.OpCode op => [byte_of_Z op]
  | TxBuilder.Data b => demo_VarInt (Z.of_nat (List.length b)) ++ b
  end.

Definition demo_script_bytes (s : list TxBuilder.ScriptCmd) : Buffer :=
  let body := List.concat (map demo_cmd_bytes s) in
  demo_VarInt (Z.of_nat (List.length body)) ++ body.

#[global] Instance demo_types : TxBuilder.Types :=
  {| TxBuilder.OutPoint := (Buffer * Z)%type;
     TxBuilder.Script := list TxBuilder.ScriptCmd;
     TxBuilder.TxInSequence := Z;
     TxBuilder.TxLockTime := Z;
     TxBuilder.Value := Z;
     TxBuilder.Witness := Buffer;
     TxBuilder.TxOut := (Z * list TxBuilder.ScriptCmd)%type;
     TxBuilder.Tx := Buffer;
     TxBuilder.Signature := Buffer |}.

Definition demo_TxIn_serialize (v : TxBuilder.TxIn) : Buffer :=
  fst (TxBuilder.outpoint v) ++ le_bytes 4 (snd (TxBuilder.outpoint v))
  ++ demo_script_bytes (TxBuilder.scriptSig v)
  ++ le_bytes 4 (TxBuilder.sequence v).

Definition demo_TxOut_serialize (o : Z * list TxBuilder.ScriptCmd) : Buffer :=
  le_bytes 8 (fst o) ++ demo_script_bytes (snd o).

#[global] Instance demo_lib : TxBuilder.Lib :=
  {| TxBuilder.Script_new := fun cmds => cmds;
     TxBuilder.Script_cmds := fun s => s;
     TxBuilder.TxIn_new := fun o s q =>
       TxBuilder.mkTxIn o
         (match s with Some s' => s' | None => [] end)
         (match q with Some q' => q' | None => 4294967295 end)
         [];
     TxBuilder.TxIn_serialize := demo_TxIn_serialize;
     TxBuilder.TxIn_clone := fun v => v;
     TxBuilder.TxOut_new := fun v s => (v, s);
     TxBuilder.TxOut_scriptPubKey := fun o => snd o;
     TxBuilder.TxOut_serialize := demo_TxOut_serialize;
     TxBuilder.TxOut_clone := fun o => o;
     TxBuilder.TxLockTime_new := 4294967295;
     TxBuilder.TxLockTime_serialize := le_bytes 4;
     TxBuilder.TxLockTime_clone := fun l => l;
     TxBuilder.Tx_new := fun v ins outs l =>
       le_bytes 4 v
       ++ demo_VarInt (Z.of_nat (List.length ins))
       ++ List.concat (map demo_TxIn_serialize ins)
       ++ demo_VarInt (Z.of_nat (List.length outs))
       ++ List.concat (map demo_TxOut_serialize outs)
       ++ le_bytes 4 l;
     TxBuilder.Tx_serialize := fun t => t;
     TxBuilder.UInt32LE := le_bytes 4;
     TxBuilder.VarInt := demo_VarInt;
     TxBuilder.hash256 := fun b => b;
     TxBuilder.ecdsa_sign := fun h k => h ++ k;
     TxBuilder.sigToDER := fun s => x30 :: s |}.

(** Two outpoints, a pay-to-pubkey-hash lock, and builders with one and
    with two inputs. *)
Definition demo_outpoint_a : Buffer * Z := ([xaa; xaa], 0).
Definition demo_outpoint_b : Buffer * Z := ([xbb; xbb], 1).
Definition demo_outpoint_c : Buffer * Z := ([xcc; xcc], 2).

Definition demo_lock : list TxBuilder.ScriptCmd :=
  [TxBuilder.OpCode 118; TxBuilder.OpCode 169; TxBuilder.Data [x9b; x40];
   TxBuilder.OpCode 136; TxBuilder.OpCode 172].

Definition demo_prevout : Z * list TxBuilder.ScriptCmd := (5000000000, demo_lock).

Definition demo_builder1 : TxBuilder.Builder :=
  TxBuilder.addOutput 4999990000 demo_lock
    (TxBuilder.addInput demo_outpoint_a None None
       (TxBuilder.set_version 2 (TxBuilder.newTxBuilder None None))).

Definition demo_builder2 : TxBuilder.Builder :=
  TxBuilder.addInput demo_outpoint_b None None demo_builder1.

Definition demo_builder2' : TxBuilder.Builder :=
  TxBuilder.addInput demo_outpoint_c (Some 7) None demo_builder1.

(** ** Properties *)

Ltac method :=
  unfold perform, signal, _onSocketData, _processMessage,
    _processPeerInitMessage, log_peer_initialized, _onSocketReady,
    _sendInitMessage, _onSocketEnd, _onSocketClose, _onSocketError,
    sendMessage, disconnect, connect, socket_write, socket_end,
    pingPong_call, assert_ok, emit, tell, update, call;
  cbn; unfold M_catch, M_bind, M_ret; cbn.

(** A whole session of the demo instance: connect, transport ready,
    remote init, one ping. *)
Example demo_session_trace :
  run demo_deserialize demo_serialize demo_writeAccepted
      [CallConnect demo_options; SigReady; SigData init_frame; SigData ping_frame]
      demo_new
  = (set_messageCounter 1 demo_ready,
     [NoiseConnect (mkNoiseSocket [x01] [x02; x03] "127.0.0.1" 9735);
      Emit EvOpen;
      Emit (EvSending init_frame);
      SocketWrite init_frame;
      LoggerInfo (MInit demo_init);
      PingPongStart;
      Emit EvReady;
      Emit (EvRawMessage ping_frame);
      PingPongOnMessage (MOther 18 [x00; x01; x00; x00]);
      Emit (EvMessage (MOther 18 [x00; x01; x00; x00]))]).
Proof. reflexivity. Qed.

Example demo_ready_fields :
  state demo_ready = ready
  /\ remoteInit demo_ready = Some demo_init
  /\ localInit demo_ready = Some demo_init
  /\ messageCounter demo_ready = 0.
Proof. repeat split. Qed.

Section Frames.

Variable deserialize : Buffer -> Completion (option IWireMessage).

(** Every way a frame can go once the state is [ready]. *)
Lemma ready_frame_outcome (raw : Buffer) (p : Peer) :
  state p = ready ->
  _onSocketData deserialize raw p =
  match deserialize raw with
  | Returns (Some m) =>
      match pingPongState p with
      | Some _ =>
          (Returns tt, set_messageCounter (messageCounter p + 1) p,
           [Emit (EvRawMessage raw); PingPongOnMessage m; Emit (EvMessage m)])
      | None =>
          match socket p with
          | Some _ =>
              (Returns tt, set_messageCounter (messageCounter p + 1) p,
               [Emit (EvRawMessage raw); SocketEnd;
                Emit (EvError (undefined_access "onMessage"))])
          | None =>
              (Throws (undefined_access "end"),
               set_messageCounter (messageCounter p + 1) p,
               [Emit (EvRawMessage raw)])
          end
      end
  | Returns None =>
      (Returns tt, set_messageCounter (messageCounter p + 1) p,
       [Emit (EvRawMessage raw)])
  | Throws e =>
      match socket p with
      | Some _ =>
          (Returns tt, set_messageCounter (messageCounter p + 1) p,
           [Emit (EvRawMessage raw); SocketEnd; Emit (EvError e)])
      | None =>
          (Throws (undefined_access "end"),
           set_messageCounter (messageCounter p + 1) p,
           [Emit (EvRawMessage raw)])
      end
  end.
Proof.
  intros Hs. method. rewrite Hs. cbn.
  destruct (deserialize raw) as [[m|]|e]; cbn.
  - destruct (pingPongState p); cbn; [reflexivity|].
    destruct (socket p); reflexivity.
  - reflexivity.
  - destruct (socket p); reflexivity.
Qed.

(** The steady-state path is taken in every state but
    [awaiting_peer_init]: the counter moves whatever the codec does. *)
Lemma steady_frame_counter (raw : Buffer) (p : Peer) :
  state p <> awaiting_peer_init ->
  messageCounter (after (_onSocketData deserialize raw p)) = messageCounter p + 1.
Proof.
  intros Hs. method.
  destruct (state p); try congruence; cbn;
    destruct (deserialize raw) as [[m|]|e]; cbn;
    destruct (pingPongState p); cbn; destruct (socket p); reflexivity.
Qed.

(** A frame taken as the remote init message never touches the
    counter. *)
Lemma init_frame_counter (raw : Buffer) (p : Peer) :
  state p = awaiting_peer_init ->
  messageCounter (after (_onSocketData deserialize raw p)) = messageCounter p.
Proof.
  intros Hs. method. rewrite Hs. cbn.
  destruct (deserialize raw) as [[[i|ty pl]|]|e]; cbn;
    destruct (logger p); cbn;
    destruct (pingPongState p); cbn; destruct (socket p); reflexivity.
Qed.

(** The state after a frame: only [awaiting_peer_init] can be left,
    and only for [ready]. *)
Lemma frame_state (raw : Buffer) (p : Peer) :
  state (after (_onSocketData deserialize raw p)) = state p
  \/ (state p = awaiting_peer_init
      /\ state (after (_onSocketData deserialize raw p)) = ready).
Proof.
  method. destruct (state p) eqn:Hs; cbn;
    destruct (deserialize raw) as [[[i|ty pl]|]|e]; cbn;
    destruct (logger p); cbn;
    destruct (pingPongState p); cbn; destruct (socket p); cbn; auto.
Qed.

End Frames.

Section Session.

Variable deserialize : Buffer -> Completion (option IWireMessage).
Variable serialize : IWireMessage -> Buffer.
Variable writeAccepted : Buffer -> bool.

Abbreviation perform := (perform deserialize serialize writeAccepted).
Abbreviation run := (run deserialize serialize writeAccepted).

(** The whole transition relation of the [state] field: the socket's
    [ready] signal sets [awaiting_peer_init], a frame can turn
    [awaiting_peer_init] into [ready], and nothing else writes the
    field. *)
Lemma perform_state (op : Op) (p : Peer) :
  state (after (perform op p)) = state p
  \/ (op = SigReady /\ state (after (perform op p)) = awaiting_peer_init)
  \/ (is_data op = true /\ state p = awaiting_peer_init
      /\ state (after (perform op p)) = ready).
Proof.
  destruct op as [o|m| | | | |err|raw].
  - left. reflexivity.
  - left. method. destruct (PeerState_eqb (state p) ready); cbn; [|reflexivity].
    destruct (socket p); reflexivity.
  - left. method. destruct (socket p); reflexivity.
  - unfold perform, signal. destruct (socket p) eqn:Hk; [|left; reflexivity].
    right. left. split; [reflexivity|]. method. rewrite Hk. reflexivity.
  - left. unfold perform, signal. destruct (socket p); reflexivity.
  - left. unfold perform, signal. destruct (socket p); [|reflexivity].
    method. destruct (pingPongState p); reflexivity.
  - left. unfold perform, signal. destruct (socket p); reflexivity.
  - unfold perform, signal. destruct (socket p); [|left; reflexivity].
    destruct (frame_state deserialize raw p) as [H|[H1 H2]]; [left; exact H|].
    right. right. repeat split; assumption.
Qed.

Lemma perform_never_closes (op : Op) (p : Peer) :
  state p <> closed -> state (after (perform op p)) <> closed.
Proof.
  intros Hs.
  destruct (perform_state op p) as [H|[[_ H]|[_ [_ H]]]]; rewrite H;
    [exact Hs | discriminate | discriminate].
Qed.

(** No sequence of operations brings a Peer to [closed]. *)
Lemma closed_unreachable (ops : list Op) (p : Peer) :
  state p <> closed -> state (fst (run ops p)) <> closed.
Proof.
  revert p. induction ops as [|op rest IH]; intros p Hs; cbn.
  - exact Hs.
  - apply IH. apply perform_never_closes. exact Hs.
Qed.

(** The operations other than an inbound frame leave the counter
    alone. *)
Lemma other_operations_counter (op : Op) (p : Peer) :
  is_data op = false ->
  messageCounter (after (perform op p)) = messageCounter p.
Proof.
  destruct op as [o|m| | | | |err|raw]; intros Hd; try discriminate Hd.
  - reflexivity.
  - method. destruct (PeerState_eqb (state p) ready); cbn; [|reflexivity].
    destruct (socket p); reflexivity.
  - method. destruct (socket p); reflexivity.
  - method. destruct (socket p); reflexivity.
  - method. destruct (socket p); reflexivity.
  - method. destruct (socket p); [|reflexivity].
    destruct (pingPongState p); reflexivity.
  - method. destruct (socket p); reflexivity.
Qed.





End Session.

Section Contract.

Variable deserialize : Buffer -> Completion (option IWireMessage).
Variable serialize : IWireMessage -> Buffer.
Variable writeAccepted : Buffer -> bool.

Abbreviation perform := (perform deserialize serialize writeAccepted).
Abbreviation run := (run deserialize serialize writeAccepted).

Lemma run_unfold (op : Op) (rest : list Op) (p : Peer) :
  run (op :: rest) p
  = (fst (run rest (after (perform op p))),
     effects (perform op p) ++ snd (run rest (after (perform op p)))).
Proof. reflexivity. Qed.

Lemma run_app (pre rest : list Op) (p : Peer) :
  run (pre ++ rest) p
  = (fst (run rest (fst (run pre p))),
     snd (run pre p) ++ snd (run rest (fst (run pre p)))).
Proof.
  revert p. induction pre as [|op pre IH]; intros p.
  - cbn. destruct (run rest p); reflexivity.
  - cbn [app]. rewrite !run_unfold, IH. cbn [fst snd].
    rewrite app_assoc. reflexivity.
Qed.



(** One operation allowed by the contract keeps the flags true of the
    Peer. *)
Lemma contract_step_inv (c r c' r' : bool) (op : Op) (p : Peer) :
  contract_inv c r p ->
  transport_step c r op = Some (c', r') ->
  contract_inv c' r' (after (perform op p)).
Proof.
  unfold contract_inv. intros (Hc & Hk & Hrc & Hr) Hstep.
  assert (Hsock : socket p <> None -> socket (after (perform op p)) <> None).
  { destruct p as [st sk mc pp lg ri li f]. cbn.
    destruct sk as [k|]; [intros _|congruence].
    destruct op as [o|m| | | | |err|raw]; method;
      try (destruct (PeerState_eqb st ready); cbn);
      try (destruct pp as [g|]; cbn);
      try discriminate.
    all: destruct (PeerState_eqb st awaiting_peer_init); cbn;
      destruct (deserialize raw) as [[[i|ty pl]|]|e]; cbn;
      destruct lg; cbn; discriminate. }
  assert (Hst : state (after (perform op p)) = state p
                \/ state (after (perform op p)) = awaiting_peer_init
                \/ state (after (perform op p)) = ready).
  { destruct (perform_state deserialize serialize writeAccepted op p)
      as [H|[[_ H]|[_ [_ H]]]]; auto. }
  assert (Hnc : state (after (perform op p)) <> closed).
  { apply perform_never_closes. exact Hc. }
  assert (Hkeep : state p <> pending -> state (after (perform op p)) <> pending).
  { intros Hp. destruct Hst as [H|[H|H]]; rewrite H; [exact Hp | | ]; discriminate. }
  destruct op as [o|m| | | | |err|raw]; cbn in Hstep.
  - inversion Hstep; subst c' r'. repeat split; auto. intros _. discriminate.
  - inversion Hstep; subst c' r'. repeat split; auto.
  - inversion Hstep; subst c' r'. repeat split; auto.
  - destruct c; [|discriminate Hstep]. inversion Hstep; subst c' r'.
    repeat split; auto. intros _.
    specialize (Hk eq_refl).
    destruct p as [st sk mc pp lg ri li f]. cbn in Hk |- *.
    destruct sk as [k|]; [|congruence]. method. discriminate.
  - inversion Hstep; subst c' r'. repeat split; auto.
  - inversion Hstep; subst c' r'. repeat split; auto.
  - inversion Hstep; subst c' r'. repeat split; auto.
  - destruct r; [|discriminate Hstep]. inversion Hstep; subst c' r'.
    repeat split; auto.
Qed.

(** A sequence allowed by the contract, cut anywhere: the flags at the
    cut are true of the Peer reached there, and the rest is allowed from
    them. *)
Lemma contract_run_inv (pre rest : list Op) (c r : bool) (p : Peer) :
  contract_inv c r p ->
  transport_contract c r (pre ++ rest) = true ->
  exists c' r',
    contract_inv c' r' (fst (run pre p))
    /\ transport_contract c' r' rest = true.
Proof.
  revert c r p. induction pre as [|op pre IH]; intros c r p Hinv Hct.
  - exists c, r. split; assumption.
  - cbn [app transport_contract] in Hct.
    destruct (transport_step c r op) as [[c1 r1]|] eqn:Hstep; [|discriminate Hct].
    rewrite run_unfold. cbn [fst].
    apply (IH c1 r1); [|exact Hct].
    apply (contract_step_inv c r c1 r1 op p Hinv Hstep).
Qed.

Lemma new_peer_contract (f : unit -> InitMessage) :
  contract_inv false false (newPeer f).
Proof.
  unfold contract_inv. cbn. repeat split; discriminate.
Qed.


(** The counter under the contract: on a Peer that the contract allows
    a frame to reach, the frame counts if and only if the state is
    [ready]. *)
Lemma contract_frame_counter (c r : bool) (raw : Buffer) (p : Peer) :
  contract_inv c r p ->
  transport_step c r (SigData raw) <> None ->
  messageCounter (after (perform (SigData raw) p))
  = messageCounter p + (if PeerState_eqb (state p) ready then 1 else 0).
Proof.
  intros (Hc & Hk & Hrc & Hr) Hstep. cbn in Hstep.
  destruct r; [|congruence].
  specialize (Hr eq_refl). specialize (Hk (Hrc eq_refl)).
  unfold perform, signal.
  destruct (socket p) as [k|]; [|congruence].
  destruct (state p) eqn:Hs; try congruence; cbn [PeerState_eqb].
  - rewrite init_frame_counter by exact Hs. lia.
  - apply steady_frame_counter. rewrite Hs. discriminate.
Qed.

End Contract.

(** ** The session state machine, claim by claim *)



(** Outside the contract.  The handler tests the state against
    [awaiting_peer_init] only: were a frame delivered to a connected Peer
    before the socket's [ready], it would take the steady-state path.
    The order of [ready] and the messages rests on the transport, not on
    a test made by the Peer. *)
Remark frame_before_transport_ready
  (deserialize : Buffer -> Completion (option IWireMessage))
  (serialize : IWireMessage -> Buffer) (writeAccepted : Buffer -> bool)
  (f : unit -> InitMessage) (o : PeerConnectOptions) (raw : Buffer) :
  transport_contract false false [CallConnect o; SigData raw] = false
  /\ exists s rest,
      snd (run deserialize serialize writeAccepted
               [CallConnect o; SigData raw] (newPeer f))
      = NoiseConnect s :: Emit (EvRawMessage raw) :: rest.
Proof.
  split; [reflexivity|].
  cbn. method.
  destruct (deserialize raw) as [[m|]|e]; cbn; eexists; eexists; reflexivity.
Qed.

(** C2.  In [awaiting_peer_init], a frame that decodes to an init message
    is stored in [remoteInit], the ping-pong machine is started, the
    state becomes [ready], and the frame emits [ready] exactly once, as
    its last effect. *)
Theorem init_frame_completes_negotiation
  (deserialize : Buffer -> Completion (option IWireMessage))
  (raw : Buffer) (p : Peer) (g : PingPongState) (i : InitMessage) :
  state p = awaiting_peer_init ->
  pingPongState p = Some g ->
  deserialize raw = Returns (Some (MInit i)) ->
  let o := _onSocketData deserialize raw p in
  completion o = Returns tt
  /\ after o = set_state ready (set_remoteInit (Some i) p)
  /\ remoteInit (after o) = Some i
  /\ state (after o) = ready
  /\ effects o = match logger p with
                 | Some _ => [LoggerInfo (MInit i); PingPongStart; Emit EvReady]
                 | None => [PingPongStart; Emit EvReady]
                 end
  /\ count is_ready_event (effects o) = 1%nat.
Proof.
  intros Hs Hg Hd.
  destruct p as [st sk mc pp lg ri li f]; cbn in Hs, Hg; subst st pp.
  method. rewrite Hd. cbn.
  destruct lg as [l|]; cbn; repeat split; reflexivity.
Qed.

Lemma init_frame_completes_negotiation_witness :
  state demo_awaiting = awaiting_peer_init
  /\ remoteInit (after (_onSocketData demo_deserialize init_frame demo_awaiting))
     = Some demo_init
  /\ state (after (_onSocketData demo_deserialize init_frame demo_awaiting)) = ready
  /\ count is_ready_event
       (effects (_onSocketData demo_deserialize init_frame demo_awaiting)) = 1%nat.
Proof.
  pose proof (init_frame_completes_negotiation demo_deserialize init_frame
                demo_awaiting mkPingPongState demo_init
                eq_refl eq_refl eq_refl) as H.
  cbv zeta in H. destruct H as (_ & _ & Hr & Hs & _ & Hc).
  split; [reflexivity|]. split; [exact Hr|]. split; [exact Hs | exact Hc].
Defined.

(** C3.  In [ready], a frame on which the factory throws: [rawmessage]
    is emitted with the raw bytes, then the catch block calls
    [socket.end()] and emits [error] with the thrown error. *)
Theorem ready_frame_decode_failure
  (deserialize : Buffer -> Completion (option IWireMessage))
  (raw : Buffer) (p : Peer) (k : NoiseSocket) (e : JsError) :
  state p = ready ->
  socket p = Some k ->
  deserialize raw = Throws e ->
  _onSocketData deserialize raw p
  = (Returns tt, set_messageCounter (messageCounter p + 1) p,
     [Emit (EvRawMessage raw); SocketEnd; Emit (EvError e)]).
Proof.
  intros Hs Hk Hd.
  rewrite (ready_frame_outcome deserialize raw p Hs), Hd, Hk. reflexivity.
Qed.

Lemma ready_frame_decode_failure_witness :
  state demo_ready = ready
  /\ demo_deserialize short_frame = Throws (mkJsError "RangeError" "Index out of range")
  /\ effects (_onSocketData demo_deserialize short_frame demo_ready)
     = [Emit (EvRawMessage short_frame); SocketEnd;
        Emit (EvError (mkJsError "RangeError" "Index out of range"))].
Proof.
  split; [reflexivity|]. split; [reflexivity|].
  rewrite (ready_frame_decode_failure demo_deserialize short_frame demo_ready
             (mkNoiseSocket [x01] [x02; x03] "127.0.0.1" 9735)
             (mkJsError "RangeError" "Index out of range")
             eq_refl eq_refl eq_refl).
  reflexivity.
Defined.

(** C4.  A frame processed in [ready] adds exactly one to
    [messageCounter], whether the factory returns a message, returns
    nothing or throws (the codec and the frame are arbitrary); a frame
    taken as the remote init message does not touch the counter, and
    neither does any operation other than an inbound frame ([connect],
    [sendMessage], [disconnect] and the socket's [ready], [end], [close]
    and [error] signals).  Under the contract of the transport that is
    all there is: on a Peer reached from [new Peer(f)] by any sequence
    of operations, the next operation adds one to the counter if it is a
    frame and the state is [ready], and leaves the counter as it is
    otherwise. *)
Theorem messageCounter_accounting
  (deserialize : Buffer -> Completion (option IWireMessage))
  (serialize : IWireMessage -> Buffer) (writeAccepted : Buffer -> bool) :
  (forall raw p,
      state p = ready ->
      messageCounter (after (_onSocketData deserialize raw p))
      = messageCounter p + 1)
  /\ (forall raw p,
         state p = awaiting_peer_init ->
         messageCounter (after (_onSocketData deserialize raw p))
         = messageCounter p)
  /\ (forall op p,
         is_data op = false ->
         messageCounter (after (perform deserialize serialize writeAccepted op p))
         = messageCounter p)
  /\ (forall f pre op,
         transport_contract false false (pre ++ [op]) = true ->
         messageCounter
           (after (perform deserialize serialize writeAccepted op
                     (fst (run deserialize serialize writeAccepted pre
                               (newPeer f)))))
         = messageCounter
             (fst (run deserialize serialize writeAccepted pre (newPeer f)))
           + (if is_data op
                 && PeerState_eqb
                      (state (fst (run deserialize serialize writeAccepted pre
                                       (newPeer f))))
                      ready
              then 1 else 0)).
Proof.
  split; [|split; [|split]].
  - intros raw p Hs. apply steady_frame_counter. rewrite Hs. discriminate.
  - intros raw p Hs. apply init_frame_counter. exact Hs.
  - intros op p Hd. apply other_operations_counter. exact Hd.
  - intros f pre op Hct.
    destruct (is_data op) eqn:Hd; cbn [andb].
    + destruct op; try discriminate Hd.
      destruct (contract_run_inv deserialize serialize writeAccepted
                  pre [SigData raw] false false (newPeer f)
                  (new_peer_contract f) Hct)
        as (c & r & Hinv & Hlast).
      apply (contract_frame_counter deserialize serialize writeAccepted c r);
        [exact Hinv|].
      cbn in Hlast |- *. destruct r; [discriminate | discriminate Hlast].
    + rewrite other_operations_counter by exact Hd. lia.
Qed.

Lemma messageCounter_accounting_witness :
  messageCounter (after (_onSocketData demo_deserialize short_frame demo_ready))
  = messageCounter demo_ready + 1
  /\ messageCounter (after (_onSocketData demo_deserialize init_frame demo_awaiting))
     = messageCounter demo_awaiting
  /\ messageCounter
       (after (perform demo_deserialize demo_serialize demo_writeAccepted
                       (SigError (Error "read ECONNRESET")) demo_ready))
     = messageCounter demo_ready
  /\ messageCounter
       (after (perform demo_deserialize demo_serialize demo_writeAccepted
                       (SigData short_frame)
                       (fst (run demo_deserialize demo_serialize demo_writeAccepted
                                 [CallConnect demo_options; SigReady;
                                  SigData init_frame] demo_new))))
     = 0 + 1.
Proof.
  destruct (messageCounter_accounting demo_deserialize demo_serialize
              demo_writeAccepted) as (Hr & Ha & Ho & Hrun).
  split; [|split; [|split]].
  - apply Hr. reflexivity.
  - apply Ha. reflexivity.
  - apply Ho. reflexivity.
  - apply (Hrun (fun _ => demo_init)
                [CallConnect demo_options; SigReady; SigData init_frame]
                (SigData short_frame)).
    reflexivity.
Defined.

(** C5.  The effects of a frame processed in [ready], in order:
    [rawmessage] with the raw bytes comes first; when the factory
    returned a message, [pingPongState.onMessage] is called with it and
    only then is [message] emitted. *)
Theorem ready_frame_order
  (deserialize : Buffer -> Completion (option IWireMessage))
  (raw : Buffer) (p : Peer) (k : NoiseSocket) (g : PingPongState) :
  state p = ready ->
  socket p = Some k ->
  pingPongState p = Some g ->
  effects (_onSocketData deserialize raw p)
  = Emit (EvRawMessage raw)
    :: match deserialize raw with
       | Returns (Some m) => [PingPongOnMessage m; Emit (EvMessage m)]
       | Returns None => []
       | Throws e => [SocketEnd; Emit (EvError e)]
       end.
Proof.
  intros Hs Hk Hg.
  rewrite (ready_frame_outcome deserialize raw p Hs), Hk, Hg.
  destruct (deserialize raw) as [[m|]|e]; reflexivity.
Qed.

Lemma ready_frame_order_witness :
  state demo_ready = ready
  /\ effects (_onSocketData demo_deserialize ping_frame demo_ready)
     = [Emit (EvRawMessage ping_frame);
        PingPongOnMessage (MOther 18 [x00; x01; x00; x00]);
        Emit (EvMessage (MOther 18 [x00; x01; x00; x00]))].
Proof.
  split; [reflexivity|].
  rewrite (ready_frame_order demo_deserialize ping_frame demo_ready
             (mkNoiseSocket [x01] [x02; x03] "127.0.0.1" 9735) mkPingPongState
             eq_refl eq_refl eq_refl).
  reflexivity.
Defined.

(** C6, as the class has it.  The socket's [close] signal tells the
    ping-pong machine that the Peer is disconnecting and emits [close];
    its [error] signal emits [error] with the error as received;
    [disconnect] calls [socket.end()].  None of the three writes the
    [state] field, and no operation at all ever sets it to [closed]: the
    state after a transport error is the state before it. *)
Theorem teardown_keeps_state
  (deserialize : Buffer -> Completion (option IWireMessage))
  (serialize : IWireMessage -> Buffer) (writeAccepted : Buffer -> bool)
  (p : Peer) :
  _onSocketClose p
  = (Returns tt, p,
     match pingPongState p with
     | Some _ => [PingPongOnDisconnecting; Emit EvClose]
     | None => [Emit EvClose]
     end)
  /\ (forall err, _onSocketError err p = (Returns tt, p, [Emit (EvError err)]))
  /\ (socket p <> None -> disconnect p = (Returns tt, p, [SocketEnd]))
  /\ (forall op,
         state p <> closed ->
         state (after (perform deserialize serialize writeAccepted op p)) <> closed).
Proof.
  split; [|split; [|split]].
  - method. destruct (pingPongState p); reflexivity.
  - intros err. reflexivity.
  - intros Hk. method. destruct (socket p); [reflexivity | congruence].
  - intros op Hs. apply perform_never_closes. exact Hs.
Qed.

Lemma teardown_keeps_state_witness :
  _onSocketError (Error "read ECONNRESET") demo_ready
  = (Returns tt, demo_ready, [Emit (EvError (Error "read ECONNRESET"))])
  /\ disconnect demo_ready = (Returns tt, demo_ready, [SocketEnd])
  /\ state (after (perform demo_deserialize demo_serialize demo_writeAccepted
                           SigClose demo_ready)) <> closed.
Proof.
  destruct (teardown_keeps_state demo_deserialize demo_serialize
              demo_writeAccepted demo_ready) as (_ & He & Hd & Hc).
  split; [apply He|]. split.
  - apply Hd. discriminate.
  - apply Hc. discriminate.
Defined.

(** C6 as stated fails: a Peer in [ready] to which the socket reports an
    error is still in [ready] afterwards, not in [closed]. *)
Lemma transport_error_leaves_ready :
  state (after (perform demo_deserialize demo_serialize demo_writeAccepted
                        (SigError (Error "read ECONNRESET")) demo_ready)) = ready
  /\ ~ state (after (perform demo_deserialize demo_serialize demo_writeAccepted
                             (SigError (Error "read ECONNRESET")) demo_ready))
       = closed.
Proof. split; [reflexivity | discriminate]. Qed.

(** C7, as the class has it.  In [awaiting_peer_init], a frame that does
    not decode to an init message (the factory throws, returns nothing,
    or returns a message of another class) makes the Peer call
    [socket.end()] and then emit [error]; before that at most the log
    line is written.  The frame emits no [ready], starts no ping-pong
    machine, and leaves every field as it was: the state is still
    [awaiting_peer_init]. *)
Theorem init_frame_failure
  (deserialize : Buffer -> Completion (option IWireMessage))
  (raw : Buffer) (p : Peer) (k : NoiseSocket) :
  state p = awaiting_peer_init ->
  socket p = Some k ->
  decoded_init (deserialize raw) = None ->
  let o := _onSocketData deserialize raw p in
  completion o = Returns tt
  /\ after o = p
  /\ state (after o) = awaiting_peer_init
  /\ (exists log err,
         effects o = log ++ [SocketEnd; Emit (EvError err)]
         /\ forallb is_log log = true)
  /\ count is_ready_event (effects o) = 0%nat.
Proof.
  intros Hs Hk Hd.
  destruct p as [st sk mc pp lg ri li f]; cbn in Hs, Hk; subst st sk.
  method.
  destruct (deserialize raw) as [[[i|ty pl]|]|e]; cbn in Hd |- *;
    try discriminate Hd;
    destruct lg as [l|]; cbn;
    (split; [reflexivity|]; split; [reflexivity|]; split; [reflexivity|];
     split; [|reflexivity]).
  - exists [LoggerInfo (MOther ty pl)], (Error "Expecting InitMessage").
    split; reflexivity.
  - exists [], (Error "Expecting InitMessage"). split; reflexivity.
  - exists [], (undefined_access "localInitialRoutingSync"). split; reflexivity.
  - exists [], (Error "Expecting InitMessage"). split; reflexivity.
  - exists [], e. split; reflexivity.
  - exists [], e. split; reflexivity.
Qed.

Lemma init_frame_failure_witness :
  decoded_init (demo_deserialize ping_frame) = None
  /\ after (_onSocketData demo_deserialize ping_frame demo_awaiting) = demo_awaiting
  /\ state (after (_onSocketData demo_deserialize ping_frame demo_awaiting))
     = awaiting_peer_init
  /\ count is_ready_event
       (effects (_onSocketData demo_deserialize ping_frame demo_awaiting)) = 0%nat.
Proof.
  pose proof (init_frame_failure demo_deserialize ping_frame demo_awaiting
                (mkNoiseSocket [x01] [x02; x03] "127.0.0.1" 9735)
                eq_refl eq_refl eq_refl) as H.
  cbv zeta in H. destruct H as (_ & Ha & Hs & _ & Hc).
  split; [reflexivity|]. split; [exact Ha|]. split; [exact Hs | exact Hc].
Defined.

(** C7 as stated fails: after a frame that is not an init message the
    Peer is not in [closed] but still in [awaiting_peer_init], and a
    later frame that does decode to an init message emits [ready]. *)
Lemma ready_after_failed_init :
  effects (_onSocketData demo_deserialize ping_frame demo_awaiting)
  = [LoggerInfo (MOther 18 [x00; x01; x00; x00]); SocketEnd;
     Emit (EvError (Error "Expecting InitMessage"))]
  /\ state demo_rejected = awaiting_peer_init
  /\ ~ state demo_rejected = closed
  /\ In (Emit EvReady)
        (effects (_onSocketData demo_deserialize init_frame demo_rejected))
  /\ state (after (_onSocketData demo_deserialize init_frame demo_rejected)) = ready.
Proof.
  split; [reflexivity|]. split; [reflexivity|]. split; [discriminate|].
  split; [|reflexivity]. cbn. auto.
Qed.

(** The connection of the previous lemma from its construction on: the
    [error] of the rejected frame is followed by [ready]. *)
Example failed_init_then_ready_trace :
  snd (run demo_deserialize demo_serialize demo_writeAccepted
           [CallConnect demo_options; SigReady;
            SigData ping_frame; SigData init_frame] demo_new)
  = [NoiseConnect (mkNoiseSocket [x01] [x02; x03] "127.0.0.1" 9735);
     Emit EvOpen;
     Emit (EvSending init_frame);
     SocketWrite init_frame;
     LoggerInfo (MOther 18 [x00; x01; x00; x00]);
     SocketEnd;
     Emit (EvError (Error "Expecting InitMessage"));
     LoggerInfo (MInit demo_init);
     PingPongStart;
     Emit EvReady].
Proof. reflexivity. Qed.

(** C8.  [sendMessage] in a state other than [ready] fails on its
    assertion with the error "Peer is not ready", before anything is
    serialized, emitted or written.  In [ready] it serializes the
    message, emits [sending] with the bytes, then writes the same bytes
    to the socket and returns what the write returned. *)
Theorem sendMessage_contract
  (serialize : IWireMessage -> Buffer) (writeAccepted : Buffer -> bool)
  (m : IWireMessage) (p : Peer) :
  (state p <> ready ->
   sendMessage serialize writeAccepted m p
   = (Throws (Error "Peer is not ready"), p, []))
  /\ (forall k,
         state p = ready ->
         socket p = Some k ->
         sendMessage serialize writeAccepted m p
         = (Returns (writeAccepted (serialize m)), p,
            [Emit (EvSending (serialize m)); SocketWrite (serialize m)])).
Proof.
  split.
  - intros Hs. method. destruct (state p); try congruence; reflexivity.
  - intros k Hs Hk. method. rewrite Hs. cbn. rewrite Hk. reflexivity.
Qed.

Lemma sendMessage_contract_witness :
  sendMessage demo_serialize demo_writeAccepted (MOther 18 [x00; x00]) demo_awaiting
  = (Throws (Error "Peer is not ready"), demo_awaiting, [])
  /\ sendMessage demo_serialize demo_writeAccepted (MOther 18 [x00; x00]) demo_ready
     = (Returns true, demo_ready,
        [Emit (EvSending [x00; x12; x00; x00]); SocketWrite [x00; x12; x00; x00]]).
Proof.
  split.
  - apply (proj1 (sendMessage_contract demo_serialize demo_writeAccepted
                    (MOther 18 [x00; x00]) demo_awaiting)).
    discriminate.
  - apply (proj2 (sendMessage_contract demo_serialize demo_writeAccepted
                    (MOther 18 [x00; x00]) demo_ready)
             (mkNoiseSocket [x01] [x02; x03] "127.0.0.1" 9735));
      reflexivity.
Defined.

(** C9, as the class has it.  On a Peer with a socket, every call of
    [disconnect] returns normally, leaves the Peer unchanged, emits no
    event (so no [close]) and calls [socket.end()] once: [n] calls in a
    row reach the socket [n] times. *)
Theorem disconnect_forwards_end
  (deserialize : Buffer -> Completion (option IWireMessage))
  (serialize : IWireMessage -> Buffer) (writeAccepted : Buffer -> bool)
  (p : Peer) (k : NoiseSocket) :
  socket p = Some k ->
  disconnect p = (Returns tt, p, [SocketEnd])
  /\ forall n,
      run deserialize serialize writeAccepted (repeat CallDisconnect n) p
      = (p, repeat SocketEnd n).
Proof.
  intros Hk.
  assert (Hd : disconnect p = (Returns tt, p, [SocketEnd])).
  { method. rewrite Hk. reflexivity. }
  split; [exact Hd|].
  induction n as [|n IH]; [reflexivity|].
  cbn [repeat run perform]. rewrite Hd. cbn [after effects fst snd].
  rewrite IH. reflexivity.
Qed.

Lemma disconnect_forwards_end_witness :
  disconnect demo_ready = (Returns tt, demo_ready, [SocketEnd])
  /\ run demo_deserialize demo_serialize demo_writeAccepted
         [CallDisconnect; CallDisconnect; CallDisconnect] demo_ready
     = (demo_ready, [SocketEnd; SocketEnd; SocketEnd]).
Proof.
  destruct (disconnect_forwards_end demo_deserialize demo_serialize
              demo_writeAccepted demo_ready
              (mkNoiseSocket [x01] [x02; x03] "127.0.0.1" 9735) eq_refl)
    as (H1 & Hn).
  split; [exact H1 | exact (Hn 3%nat)].
Defined.

(** C9 as stated fails: a second [disconnect] is not a no-op, it calls
    [socket.end()] again. *)
Lemma second_disconnect_reaches_socket :
  effects (disconnect (after (disconnect demo_ready))) = [SocketEnd]
  /\ ~ effects (disconnect (after (disconnect demo_ready))) = [].
Proof. split; [reflexivity | discriminate]. Qed.

(** C10.  In [ready], a frame for which the factory returns nothing
    without throwing: the counter goes up by one and [rawmessage] is
    emitted, and that is all.  No [message], no [error], no
    [socket.end()], and the state is still [ready]. *)
Theorem ready_frame_without_message
  (deserialize : Buffer -> Completion (option IWireMessage))
  (raw : Buffer) (p : Peer) :
  state p = ready ->
  deserialize raw = Returns None ->
  _onSocketData deserialize raw p
  = (Returns tt, set_messageCounter (messageCounter p + 1) p,
     [Emit (EvRawMessage raw)])
  /\ state (after (_onSocketData deserialize raw p)) = ready
  /\ messageCounter (after (_onSocketData deserialize raw p)) = messageCounter p + 1.
Proof.
  intros Hs Hd.
  rewrite (ready_frame_outcome deserialize raw p Hs), Hd.
  split; [reflexivity|]. split; [exact Hs | reflexivity].
Qed.

Lemma ready_frame_without_message_witness :
  demo_deserialize unknown_frame = Returns None
  /\ _onSocketData demo_deserialize unknown_frame demo_ready
     = (Returns tt, set_messageCounter 1 demo_ready,
        [Emit (EvRawMessage unknown_frame)]).
Proof.
  split; [reflexivity|].
  exact (proj1 (ready_frame_without_message demo_deserialize unknown_frame
                  demo_ready eq_refl eq_refl)).
Defined.

(** ** Whole runs of a Peer *)

Section Runs.

Variable deserialize : Buffer -> Completion (option IWireMessage).
Variable serialize : IWireMessage -> Buffer.
Variable writeAccepted : Buffer -> bool.

Abbreviation perform := (perform deserialize serialize writeAccepted).
Abbreviation run := (run deserialize serialize writeAccepted).

Lemma run_cons (op : Op) (rest : list Op) (p : Peer) :
  run (op :: rest) p
  = (fst (run rest (after (perform op p))),
     effects (perform op p) ++ snd (run rest (after (perform op p)))).
Proof. reflexivity. Qed.

Lemma count_app (g : Effect -> bool) (t u : list Effect) :
  count g (t ++ u) = (count g t + count g u)%nat.
Proof. unfold count. rewrite filter_app, length_app. reflexivity. Qed.

Lemma perform_well_formed (f : unit -> InitMessage) (op : Op) (p : Peer) :
  well_formed f p -> well_formed f (after (perform op p)).
Proof.
  unfold well_formed.
  destruct p as [st sk mc pp lg ri li fi]; cbn.
  intros (Hf & Hp & Hc & Hs & Hr & Hm).
  assert (Hs1 : st <> pending -> sk <> None) by (intros H; apply Hs; exact H).
  assert (Hs2 : st <> pending -> li = Some (f tt)) by (intros H; apply Hs; exact H).
  clear Hs. subst fi.
  destruct op as [o|m| | | | |err|raw]; method;
    destruct sk as [k|]; cbn;
    try (destruct (PeerState_eqb st ready); cbn);
    try (destruct pp as [g|]; cbn);
    try solve [repeat split; auto; try discriminate; try congruence].
  all: destruct st; cbn;
    destruct (deserialize raw) as [[[i|ty pl]|]|e]; cbn;
    destruct lg; cbn;
    solve [repeat split; auto; try discriminate; try congruence; try lia;
           apply Hs2; discriminate].
Qed.

Lemma perform_counter (op : Op) (p : Peer) :
  messageCounter (after (perform op p))
  = messageCounter p
    + Z.of_nat (count is_rawmessage_event (effects (perform op p))).
Proof.
  destruct p as [st sk mc pp lg ri li fi].
  destruct op as [o|m| | | | |err|raw]; method;
    destruct sk as [k|]; cbn;
    try (destruct (PeerState_eqb st ready); cbn);
    try (destruct pp as [g|]; cbn);
    try lia.
  all: destruct st; cbn;
    destruct (deserialize raw) as [[[i|ty pl]|]|e]; cbn;
    destruct lg; cbn; lia.
Qed.

Lemma heralded_weaken (prev : option Effect) (t : list Effect) :
  heralded None t -> heralded prev t.
Proof.
  destruct t as [|x t]; cbn; [trivial|].
  intros [H1 H2]. split; [|exact H2].
  destruct (herald x); [discriminate H1 | trivial].
Qed.

Lemma heralded_app (prev : option Effect) (t u : list Effect) :
  heralded prev t -> heralded None u -> heralded prev (t ++ u).
Proof.
  revert prev. induction t as [|x t IH]; cbn; intros prev Ht Hu.
  - apply heralded_weaken. exact Hu.
  - destruct Ht as [H1 H2]. split; [exact H1|]. apply IH; assumption.
Qed.

Lemma perform_heralded (op : Op) (p : Peer) :
  heralded None (effects (perform op p)).
Proof.
  destruct p as [st sk mc pp lg ri li fi].
  destruct op as [o|m| | | | |err|raw]; method;
    destruct sk as [k|]; cbn;
    try (destruct (PeerState_eqb st ready); cbn);
    try (destruct pp as [g|]; cbn);
    try solve [repeat split].
  all: destruct st; cbn;
    destruct (deserialize raw) as [[[i|ty pl]|]|e]; cbn;
    destruct lg; cbn; repeat split.
Qed.

(** Without a new [ready] signal of the socket, an operation emits
    [ready] at most once, and only when it leaves [awaiting_peer_init]. *)
Lemma perform_ready_budget (op : Op) (p : Peer) :
  is_sig_ready op = false ->
  (state p <> awaiting_peer_init ->
   state (after (perform op p)) <> awaiting_peer_init
   /\ count is_ready_event (effects (perform op p)) = 0%nat)
  /\ (state p = awaiting_peer_init ->
      (state (after (perform op p)) = awaiting_peer_init
       /\ count is_ready_event (effects (perform op p)) = 0%nat)
      \/ (state (after (perform op p)) = ready
          /\ count is_ready_event (effects (perform op p)) = 1%nat)).
Proof.
  intros Hop.
  destruct p as [st sk mc pp lg ri li fi].
  destruct op as [o|m| | | | |err|raw]; try discriminate Hop; method;
    destruct sk as [k|]; cbn;
    try (destruct (PeerState_eqb st ready); cbn);
    try (destruct pp as [g|]; cbn);
    try solve [split; intros H; auto].
  all: destruct st; cbn;
    destruct (deserialize raw) as [[[i|ty pl]|]|e]; cbn;
    destruct lg; cbn;
    (split; intros H; try congruence; auto).
Qed.

(** Before the socket's [ready] signal nothing is written; the signal
    writes the local init message first. *)
Lemma pending_step_first_write (op : Op) (p : Peer) :
  state p = pending ->
  (state (after (perform op p)) = pending
   /\ initMessageFactory (after (perform op p)) = initMessageFactory p
   /\ first_write (effects (perform op p)) = None)
  \/ first_write (effects (perform op p))
     = Some (serialize (MInit (initMessageFactory p tt))).
Proof.
  destruct p as [st sk mc pp lg ri li fi]. cbn. intros ->.
  destruct op as [o|m| | | | |err|raw]; method;
    destruct sk as [k|]; cbn;
    try (destruct pp as [g|]; cbn);
    auto.
  all: destruct (deserialize raw) as [[m|]|e]; cbn; auto.
Qed.

Lemma first_write_app (t u : list Effect) :
  first_write (t ++ u)
  = match first_write t with
    | Some buf => Some buf
    | None => first_write u
    end.
Proof.
  induction t as [|x t IH]; cbn; [destruct (first_write u); reflexivity|].
  destruct x; auto.
Qed.

(** A Peer without a socket does nothing, whatever is asked of it short
    of [connect]. *)
Lemma inert_step (op : Op) (p : Peer) :
  is_connect op = false ->
  socket p = None ->
  state p = pending ->
  after (perform op p) = p /\ effects (perform op p) = [].
Proof.
  intros Hop.
  destruct p as [st sk mc pp lg ri li fi]. cbn. intros -> ->.
  destruct op as [o|m| | | | |err|raw]; try discriminate Hop; method; auto.
Qed.

End Runs.

(** X1.  Whatever is done to a Peer made by [new Peer(f)], its fields
    stay consistent: the ping-pong machine is there, the state is never
    [closed], out of [pending] there is a socket and [localInit] holds
    what the factory returned, in [ready] the remote init message is
    stored, and the counter is not negative. *)
Theorem reachable_well_formed
  (deserialize : Buffer -> Completion (option IWireMessage))
  (serialize : IWireMessage -> Buffer) (writeAccepted : Buffer -> bool)
  (f : unit -> InitMessage) (ops : list Op) :
  well_formed f (fst (run deserialize serialize writeAccepted ops (newPeer f))).
Proof.
  assert (H0 : well_formed f (newPeer f)).
  { unfold well_formed. cbn. repeat split; try discriminate; try lia;
      intros; congruence. }
  revert H0. generalize (newPeer f) as p.
  induction ops as [|op rest IH]; intros p Hp; cbn; [exact Hp|].
  apply IH. apply perform_well_formed. exact Hp.
Qed.

(** X2.  Over any sequence of operations, from any Peer, the counter
    grows by the number of [rawmessage] events emitted: every counted
    frame is shown raw to the subscribers and every [rawmessage] is
    counted. *)
Theorem counter_counts_rawmessages
  (deserialize : Buffer -> Completion (option IWireMessage))
  (serialize : IWireMessage -> Buffer) (writeAccepted : Buffer -> bool)
  (ops : list Op) (p : Peer) :
  messageCounter (fst (run deserialize serialize writeAccepted ops p))
  = messageCounter p
    + Z.of_nat (count is_rawmessage_event
                  (snd (run deserialize serialize writeAccepted ops p))).
Proof.
  revert p. induction ops as [|op rest IH]; intros p; [cbn; lia|].
  rewrite run_cons. cbn [fst snd].
  rewrite IH, count_app, Nat2Z.inj_add.
  rewrite (perform_counter deserialize serialize writeAccepted op p). lia.
Qed.

(** X3.  Frames that all decode, delivered in a row to a Peer in
    [ready]: each one is shown raw, handed to the ping-pong machine and
    emitted as [message], frame after frame in the order of arrival; the
    counter has grown by their number and the state is still [ready]. *)
Theorem valid_frames_dispatched_in_order
  (deserialize : Buffer -> Completion (option IWireMessage))
  (serialize : IWireMessage -> Buffer) (writeAccepted : Buffer -> bool)
  (raws : list Buffer) (ms : list IWireMessage)
  (p : Peer) (k : NoiseSocket) (g : PingPongState) :
  state p = ready ->
  socket p = Some k ->
  pingPongState p = Some g ->
  Forall2 (fun raw m => deserialize raw = Returns (Some m)) raws ms ->
  run deserialize serialize writeAccepted (map SigData raws) p
  = (set_messageCounter (messageCounter p + Z.of_nat (List.length raws)) p,
     List.concat (map (fun rm => dispatched (fst rm) (snd rm)) (combine raws ms))).
Proof.
  intros Hs Hk Hg HF. revert p Hs Hk Hg.
  induction HF as [|raw m raws ms Hd HF IH]; intros p Hs Hk Hg.
  - cbn. destruct p; cbn. rewrite Z.add_0_r. reflexivity.
  - cbn [map combine List.concat]. rewrite run_cons.
    assert (Hstep : perform deserialize serialize writeAccepted (SigData raw) p
                    = (Returns tt, set_messageCounter (messageCounter p + 1) p,
                       dispatched raw m)).
    { unfold perform, signal. rewrite Hk.
      rewrite (ready_frame_outcome deserialize raw p Hs), Hd, Hg. reflexivity. }
    rewrite Hstep. cbn [after effects fst snd].
    rewrite (IH (set_messageCounter (messageCounter p + 1) p) Hs Hk Hg).
    cbn [fst snd]. f_equal.
    destruct p as [st sk mc pp lg ri li f].
    unfold set_messageCounter. cbn [state socket messageCounter pingPongState
      logger remoteInit localInit initMessageFactory List.length].
    f_equal. lia.
Qed.

Lemma valid_frames_dispatched_in_order_witness :
  run demo_deserialize demo_serialize demo_writeAccepted
      (map SigData [ping_frame; [x00; x13; x00; x00]]) demo_ready
  = (set_messageCounter 2 demo_ready,
     dispatched ping_frame (MOther 18 [x00; x01; x00; x00])
     ++ dispatched [x00; x13; x00; x00] (MOther 19 [x00; x00])).
Proof.
  apply (valid_frames_dispatched_in_order demo_deserialize demo_serialize
           demo_writeAccepted
           [ping_frame; [x00; x13; x00; x00]]
           [MOther 18 [x00; x01; x00; x00]; MOther 19 [x00; x00]]
           demo_ready (mkNoiseSocket [x01] [x02; x03] "127.0.0.1" 9735)
           mkPingPongState); try reflexivity.
  repeat constructor.
Defined.

(** X4.  As long as the socket does not signal [ready] again, [ready] is
    emitted at most once, and not at all unless the Peer starts in
    [awaiting_peer_init]: frames after the handshake never announce it a
    second time. *)
Theorem ready_once_per_transport_ready
  (deserialize : Buffer -> Completion (option IWireMessage))
  (serialize : IWireMessage -> Buffer) (writeAccepted : Buffer -> bool)
  (ops : list Op) (p : Peer) :
  forallb (fun op => negb (is_sig_ready op)) ops = true ->
  (count is_ready_event (snd (run deserialize serialize writeAccepted ops p))
   <= if PeerState_eqb (state p) awaiting_peer_init then 1 else 0)%nat.
Proof.
  revert p. induction ops as [|op rest IH]; intros p Hops.
  - cbn. destruct (PeerState_eqb (state p) awaiting_peer_init); lia.
  - cbn in Hops. apply andb_prop in Hops. destruct Hops as [Hop Hrest].
    apply negb_true_iff in Hop.
    rewrite run_cons. cbn [fst snd].
    rewrite count_app.
    specialize (IH (after (perform deserialize serialize writeAccepted op p)) Hrest).
    destruct (perform_ready_budget deserialize serialize writeAccepted op p Hop)
      as [Hother Hawait].
    destruct (state p) eqn:Hs; cbn.
    + destruct Hother as [Hn Hc]; [discriminate|]. rewrite Hc.
      destruct (state (after (perform deserialize serialize writeAccepted op p)));
        cbn in IH; try congruence; lia.
    + destruct (Hawait eq_refl) as [[Hn Hc]|[Hn Hc]]; rewrite Hc;
        rewrite Hn in IH; cbn in IH; lia.
    + destruct Hother as [Hn Hc]; [discriminate|]. rewrite Hc.
      destruct (state (after (perform deserialize serialize writeAccepted op p)));
        cbn in IH; try congruence; lia.
    + destruct Hother as [Hn Hc]; [discriminate|]. rewrite Hc.
      destruct (state (after (perform deserialize serialize writeAccepted op p)));
        cbn in IH; try congruence; lia.
Qed.

Lemma ready_once_per_transport_ready_witness :
  (count is_ready_event
     (snd (run demo_deserialize demo_serialize demo_writeAccepted
               [SigData ping_frame; SigData init_frame; SigData init_frame;
                SigData ping_frame; SigClose] demo_awaiting))
   <= 1)%nat.
Proof.
  exact (ready_once_per_transport_ready demo_deserialize demo_serialize
           demo_writeAccepted
           [SigData ping_frame; SigData init_frame; SigData init_frame;
            SigData ping_frame; SigClose] demo_awaiting eq_refl).
Defined.

(** X5.  In the trace of any sequence of operations, every write to the
    socket comes right after the [sending] event carrying the same
    bytes, and every [message] event comes right after the hand-over of
    the same message to the ping-pong machine. *)
Theorem effects_heralded
  (deserialize : Buffer -> Completion (option IWireMessage))
  (serialize : IWireMessage -> Buffer) (writeAccepted : Buffer -> bool)
  (ops : list Op) (p : Peer) :
  heralded None (snd (run deserialize serialize writeAccepted ops p)).
Proof.
  revert p. induction ops as [|op rest IH]; intros p; [cbn; trivial|].
  rewrite run_cons. cbn [fst snd].
  apply heralded_app; [apply perform_heralded | apply IH].
Qed.

(** X6.  The first bytes that a Peer made by [new Peer(f)] ever writes
    to its socket, if it writes at all, are the serialized init message
    of the factory. *)
Theorem first_write_is_local_init
  (deserialize : Buffer -> Completion (option IWireMessage))
  (serialize : IWireMessage -> Buffer) (writeAccepted : Buffer -> bool)
  (f : unit -> InitMessage) (ops : list Op) :
  first_write (snd (run deserialize serialize writeAccepted ops (newPeer f))) = None
  \/ first_write (snd (run deserialize serialize writeAccepted ops (newPeer f)))
     = Some (serialize (MInit (f tt))).
Proof.
  assert (H : forall p, state p = pending -> initMessageFactory p = f ->
              first_write (snd (run deserialize serialize writeAccepted ops p)) = None
              \/ first_write (snd (run deserialize serialize writeAccepted ops p))
                 = Some (serialize (MInit (f tt)))).
  { induction ops as [|op rest IH]; intros p Hs Hf; [left; reflexivity|].
    rewrite run_cons. cbn [fst snd].
    rewrite first_write_app.
    destruct (pending_step_first_write deserialize serialize writeAccepted op p Hs)
      as [(Hs' & Hf' & Hw)|Hw]; rewrite Hw.
    - apply IH; [exact Hs' | congruence].
    - right. rewrite Hf. reflexivity. }
  apply H; reflexivity.
Qed.

(** X7.  Before [connect] a Peer is inert: [sendMessage] fails on its
    assertion, [disconnect] fails on the missing socket, no signal can
    arrive, and any sequence of such operations leaves the Peer as it
    was made, with an empty trace. *)
Theorem inert_before_connect
  (deserialize : Buffer -> Completion (option IWireMessage))
  (serialize : IWireMessage -> Buffer) (writeAccepted : Buffer -> bool)
  (f : unit -> InitMessage) (m : IWireMessage) (ops : list Op) :
  forallb (fun op => negb (is_connect op)) ops = true ->
  sendMessage serialize writeAccepted m (newPeer f)
  = (Throws (Error "Peer is not ready"), newPeer f, [])
  /\ disconnect (newPeer f) = (Throws (undefined_access "end"), newPeer f, [])
  /\ run deserialize serialize writeAccepted ops (newPeer f) = (newPeer f, []).
Proof.
  intros Hops. split; [reflexivity|]. split; [reflexivity|].
  induction ops as [|op rest IH]; [reflexivity|].
  cbn in Hops. apply andb_prop in Hops. destruct Hops as [Hop Hrest].
  apply negb_true_iff in Hop.
  rewrite run_cons.
  destruct (inert_step deserialize serialize writeAccepted op (newPeer f) Hop
              eq_refl eq_refl) as [Ha He].
  rewrite Ha, He, (IH Hrest). reflexivity.
Qed.

Lemma inert_before_connect_witness :
  run demo_deserialize demo_serialize demo_writeAccepted
      [CallDisconnect; SigReady; SigData init_frame;
       CallSendMessage (MOther 18 []); SigClose] demo_new
  = (demo_new, []).
Proof.
  exact (proj2 (proj2 (inert_before_connect demo_deserialize demo_serialize
                         demo_writeAccepted (fun _ => demo_init) (MOther 18 [])
                         [CallDisconnect; SigReady; SigData init_frame;
                          CallSendMessage (MOther 18 []); SigClose] eq_refl))).
Defined.

(** X8.  Which error a rejected init frame is reported with.  An
    exception of the factory is passed on as it is; a message of another
    class gives "Expecting InitMessage", after the log line if there is
    a logger; when the factory returns nothing, a Peer with a logger
    fails on the log line with a TypeError and only a Peer without one
    reports "Expecting InitMessage". *)
Theorem init_rejection_error
  (deserialize : Buffer -> Completion (option IWireMessage))
  (raw : Buffer) (p : Peer) (k : NoiseSocket) :
  state p = awaiting_peer_init ->
  socket p = Some k ->
  decoded_init (deserialize raw) = None ->
  effects (_onSocketData deserialize raw p)
  = match logger p, deserialize raw with
    | Some _, Returns (Some m) => [LoggerInfo m]
    | _, _ => []
    end
    ++ [SocketEnd; Emit (EvError (init_rejection (deserialize raw) (logger p)))].
Proof.
  intros Hs Hk Hd.
  destruct p as [st sk mc pp lg ri li f]; cbn in Hs, Hk; subst st sk.
  method.
  destruct (deserialize raw) as [[[i|ty pl]|]|e]; cbn in Hd |- *;
    try discriminate Hd; destruct lg as [l|]; reflexivity.
Qed.

Lemma init_rejection_error_witness :
  effects (_onSocketData demo_deserialize unknown_frame demo_awaiting)
  = [SocketEnd;
     Emit (EvError (TypeError
       "Cannot read property localInitialRoutingSync of undefined"))].
Proof.
  exact (init_rejection_error demo_deserialize unknown_frame demo_awaiting
           (mkNoiseSocket [x01] [x02; x03] "127.0.0.1" 9735)
           eq_refl eq_refl eq_refl).
Defined.

(** X9.  The socket's [ready] signal on a connected Peer, in whatever
    state: the state becomes [awaiting_peer_init], [open] is emitted,
    the factory's init message is stored in [localInit], and its bytes
    are announced by [sending] and then written to the socket. *)
Theorem transport_ready_handshake
  (serialize : IWireMessage -> Buffer) (writeAccepted : Buffer -> bool)
  (p : Peer) (k : NoiseSocket) :
  socket p = Some k ->
  _onSocketReady serialize writeAccepted p
  = (Returns tt,
     set_localInit (Some (initMessageFactory p tt))
                   (set_state awaiting_peer_init p),
     [Emit EvOpen;
      Emit (EvSending (serialize (MInit (initMessageFactory p tt))));
      SocketWrite (serialize (MInit (initMessageFactory p tt)))]).
Proof.
  intros Hk. destruct p as [st sk mc pp lg ri li f]; cbn in Hk; subst sk.
  reflexivity.
Qed.

Lemma transport_ready_handshake_witness :
  _onSocketReady demo_serialize demo_writeAccepted demo_ready
  = (Returns tt, set_state awaiting_peer_init demo_ready,
     [Emit EvOpen; Emit (EvSending init_frame); SocketWrite init_frame]).
Proof.
  exact (transport_ready_handshake demo_serialize demo_writeAccepted demo_ready
           (mkNoiseSocket [x01] [x02; x03] "127.0.0.1" 9735) eq_refl).
Defined.

(** ** TxBuilder *)

Section TxBuilderFacts.

Import TxBuilder.
Context {T : Types} {L : Lib}.

Lemma sort_insert_perm {A} (cmp : A -> A -> Z) (x : A) (l : list A) :
  Permutation (sort_insert cmp x l) (x :: l).
Proof.
  induction l as [|y ys IH]; cbn; [reflexivity|].
  destruct (cmp x y <=? 0); [reflexivity|].
  rewrite IH. apply perm_swap.
Qed.

Lemma Array_sort_perm {A} (cmp : A -> A -> Z) (l : list A) :
  Permutation (Array_sort cmp l) l.
Proof.
  induction l as [|x xs IH]; cbn; [reflexivity|].
  rewrite sort_insert_perm. constructor. exact IH.
Qed.

(** A comparator that answers 0 everywhere leaves the order alone. *)
Lemma Array_sort_const {A} (cmp : A -> A -> Z) (l : list A) :
  (forall x y, cmp x y = 0) -> Array_sort cmp l = l.
Proof.
  intros Hc. induction l as [|x xs IH]; cbn; [reflexivity|].
  rewrite IH. destruct xs as [|y ys]; cbn; [reflexivity|].
  rewrite Hc. reflexivity.
Qed.

Lemma sort_insert_map {A B} (g : A -> B) (cmpA : A -> A -> Z)
      (cmpB : B -> B -> Z) (x : A) (l : list A) :
  (forall a c, cmpB (g a) (g c) = cmpA a c) ->
  sort_insert cmpB (g x) (map g l) = map g (sort_insert cmpA x l).
Proof.
  intros Hc. induction l as [|y ys IH]; cbn; [reflexivity|].
  rewrite Hc. destruct (cmpA x y <=? 0); cbn; [reflexivity|].
  rewrite IH. reflexivity.
Qed.

(** Sorting commutes with a change of the elements that the comparator
    does not see. *)
Lemma Array_sort_map {A B} (g : A -> B) (cmpA : A -> A -> Z)
      (cmpB : B -> B -> Z) (l : list A) :
  (forall a c, cmpB (g a) (g c) = cmpA a c) ->
  Array_sort cmpB (map g l) = map g (Array_sort cmpA l).
Proof.
  intros Hc. induction l as [|x xs IH]; cbn; [reflexivity|].
  rewrite IH. apply sort_insert_map. exact Hc.
Qed.

Lemma list_update_length {A} (k : nat) (f : A -> A) (l : list A) :
  List.length (list_update k f l) = List.length l.
Proof.
  revert k. induction l as [|x xs IH]; intros [|k]; cbn; auto.
Qed.

Lemma list_update_nth {A} (k i : nat) (f : A -> A) (l : list A) :
  nth_error (list_update k f l) i
  = if Nat.eqb i k then option_map f (nth_error l i) else nth_error l i.
Proof.
  revert k i. induction l as [|x xs IH]; intros k i.
  - cbn. destruct k, i; cbn; try reflexivity; destruct (Nat.eqb i k); reflexivity.
  - destruct k as [|k], i as [|i]; cbn; try reflexivity. apply IH.
Qed.

Lemma combine_seq_update {A} (s k : nat) (f : A -> A) (l : list A) :
  combine (seq s (List.length (list_update k f l))) (list_update k f l)
  = map (retag (s + k) f) (combine (seq s (List.length l)) l).
Proof.
  revert s k. induction l as [|x xs IH]; intros s k; [destruct k; reflexivity|].
  destruct k as [|k]; cbn [list_update List.length seq combine map].
  - unfold retag at 1. cbn [fst snd]. rewrite Nat.add_0_r, Nat.eqb_refl. f_equal.
    clear IH. revert s. induction xs as [|y ys IH]; intros s; [reflexivity|].
    cbn [List.length seq combine map]. unfold retag at 1. cbn [fst snd].
    replace (Nat.eqb (S s) s) with false
      by (symmetry; apply Nat.eqb_neq; lia).
    f_equal.
    specialize (IH (S s)).
    rewrite IH at 1.
    apply map_ext_in. intros [j v] Hin. unfold retag. cbn [fst snd].
    apply in_combine_l in Hin. apply in_seq in Hin.
    replace (Nat.eqb j (S s)) with false by (symmetry; apply Nat.eqb_neq; lia).
    replace (Nat.eqb j s) with false by (symmetry; apply Nat.eqb_neq; lia).
    reflexivity.
  - unfold retag at 1. cbn [fst snd].
    replace (Nat.eqb s (s + S k)) with false
      by (symmetry; apply Nat.eqb_neq; lia).
    f_equal. rewrite IH. replace (S s + k)%nat with (s + S k)%nat by lia.
    reflexivity.
Qed.

Lemma tagged_update {A} (k : nat) (f : A -> A) (l : list A) :
  tagged (list_update k f l) = map (retag k f) (tagged l).
Proof. unfold tagged. apply (combine_seq_update 0 k f l). Qed.

Lemma tagged_snd {A} (l : list A) : map snd (tagged l) = l.
Proof.
  unfold tagged. generalize 0%nat.
  induction l as [|x xs IH]; intros s; cbn; [reflexivity|].
  rewrite IH. reflexivity.
Qed.

Lemma tagged_fst {A} (l : list A) : map fst (tagged l) = seq 0 (List.length l).
Proof.
  unfold tagged. generalize 0%nat.
  induction l as [|x xs IH]; intros s; cbn; [reflexivity|].
  rewrite IH. reflexivity.
Qed.

Lemma retag_absent {A} (k : nat) (f : A -> A) (r : list (nat * A)) :
  ~ In k (map fst r) -> map (retag k f) r = r.
Proof.
  induction r as [|[j v] r IH]; cbn; intros Hn; [reflexivity|].
  unfold retag at 1. cbn [fst snd].
  replace (Nat.eqb j k) with false by (symmetry; apply Nat.eqb_neq; tauto).
  rewrite IH by tauto. reflexivity.
Qed.

(** Changing the object tagged [k] changes the one place where it sits
    in an array of distinct objects. *)
Lemma retag_at {A} (k : nat) (f : A -> A) (r : list (nat * A)) (i : nat) (v : A) :
  NoDup (map fst r) ->
  nth_error r i = Some (k, v) ->
  map snd (map (retag k f) r) = list_update i f (map snd r).
Proof.
  revert i. induction r as [|[j u] r IH]; intros i Hnd Hi.
  - destruct i; discriminate Hi.
  - cbn in Hnd. inversion Hnd as [|? ? Hnotin Hnd']; subst.
    destruct i as [|i]; cbn in Hi.
    + inversion Hi; subst. cbn [map list_update]. unfold retag at 1.
      cbn [fst snd]. rewrite Nat.eqb_refl.
      rewrite retag_absent by exact Hnotin. reflexivity.
    + cbn [map list_update]. unfold retag at 1. cbn [fst snd].
      assert (Hin : In k (map fst r)).
      { apply nth_error_In in Hi. apply (in_map fst) in Hi. exact Hi. }
      replace (Nat.eqb j k) with false
        by (symmetry; apply Nat.eqb_neq; intros ->; contradiction).
      f_equal. apply (IH i Hnd' Hi).
Qed.

Lemma inputs_refs_perm (b : Builder) :
  Permutation (inputs_refs b) (tagged (_inputs b)).
Proof. apply Array_sort_perm. Qed.

Lemma inputs_refs_NoDup (b : Builder) : NoDup (map fst (inputs_refs b)).
Proof.
  apply (Permutation_NoDup (l := map fst (tagged (_inputs b)))).
  - apply Permutation_map. symmetry. apply inputs_refs_perm.
  - rewrite tagged_fst. apply seq_NoDup.
Qed.

(** The getter after an assignment to a property of one input, for a
    comparator that does not look at the property. *)
Lemma inputs_after_update (b : Builder) (f : TxIn -> TxIn) (i k : nat) (v : TxIn) :
  (forall x y, inputSorter b (f x) y = inputSorter b x y
               /\ inputSorter b x (f y) = inputSorter b x y) ->
  nth_error (inputs_refs b) i = Some (k, v) ->
  inputs (set_inputs (list_update k f (_inputs b)) b)
  = list_update i f (inputs b).
Proof.
  intros Hblind Hi. unfold inputs, inputs_refs.
  cbn [inputSorter _inputs set_inputs].
  rewrite tagged_update.
  rewrite (Array_sort_map (retag k f)
             (fun x y => inputSorter b (snd x) (snd y))
             (fun x y => inputSorter b (snd x) (snd y))).
  - apply (retag_at k f _ i v); [apply inputs_refs_NoDup | exact Hi].
  - intros [j x] [j' y]. unfold retag. cbn [fst snd].
    destruct (Nat.eqb j k), (Nat.eqb j' k); try reflexivity.
    + rewrite (proj1 (Hblind x (f y))). apply Hblind.
    + apply Hblind.
    + apply Hblind.
Qed.

Lemma hashAll_inputs_past (i : Z) (rest : list TxIn) (input : Z)
      (prevout : TxOut) (redeemScript : option Buffer) (w : Buffer) :
  input < i ->
  hashAll_inputs i rest input prevout redeemScript w = w.
Proof.
  revert i w. induction rest as [|vin rest IH]; intros i w Hlt; cbn; [reflexivity|].
  replace (i =? input) with false by (symmetry; apply Z.eqb_neq; lia).
  apply IH. lia.
Qed.

(** The loop over the inputs writes the signatory input and nothing
    else. *)
Lemma hashAll_inputs_closed (i : Z) (rest : list TxIn) (input : Z)
      (prevout : TxOut) (redeemScript : option Buffer) (w : Buffer) :
  hashAll_inputs i rest input prevout redeemScript w
  = w ++ match array_get rest (input - i) with
         | Some vin =>
             TxIn_serialize
               (TxIn_new (outpoint vin)
                         (Some (commitScript prevout redeemScript))
                         (Some (sequence vin)))
         | None => []
         end.
Proof.
  revert i w. induction rest as [|vin rest IH]; intros i w.
  - cbn. unfold array_get. destruct (0 <=? input - i);
      [destruct (Z.to_nat (input - i))|]; cbn; rewrite app_nil_r; reflexivity.
  - cbn [hashAll_inputs]. destruct (Z.eqb_spec i input) as [->|Hne].
    + rewrite hashAll_inputs_past by lia.
      rewrite Z.sub_diag. reflexivity.
    + rewrite IH. f_equal. unfold array_get.
      destruct (Z.leb_spec 0 (input - i)) as [Hle|Hlt].
      * replace (0 <=? input - (i + 1)) with true
          by (symmetry; apply Z.leb_le; lia).
        replace (Z.to_nat (input - i)) with (S (Z.to_nat (input - (i + 1))))
          by lia.
        reflexivity.
      * replace (0 <=? input - (i + 1)) with false
          by (symmetry; apply Z.leb_gt; lia).
        reflexivity.
Qed.

Lemma fold_left_write {A} (ser : A -> Buffer) (l : list A) (w : Buffer) :
  fold_left (fun w x => w ++ ser x) l w = w ++ List.concat (map ser l).
Proof.
  revert w. induction l as [|x xs IH]; intros w; cbn.
  - rewrite app_nil_r. reflexivity.
  - rewrite IH, <- app_assoc. reflexivity.
Qed.

(** What [hashAll] hashes, field by field. *)
Lemma hashAll_writer_closed (input : Z) (prevout : TxOut)
      (redeemScript : option Buffer) (b : Builder) :
  hashAll_writer input prevout redeemScript b
  = UInt32LE (version b)
    ++ VarInt (Z.of_nat (List.length (inputs b)))
    ++ match array_get (inputs b) input with
       | Some vin =>
           TxIn_serialize
             (TxIn_new (outpoint vin)
                       (Some (commitScript prevout redeemScript))
                       (Some (sequence vin)))
       | None => []
       end
    ++ VarInt (Z.of_nat (List.length (outputs b)))
    ++ List.concat (map TxOut_serialize (outputs b))
    ++ TxLockTime_serialize (locktime b)
    ++ UInt32LE 1.
Proof.
  unfold hashAll_writer. cbv zeta.
  rewrite fold_left_write, hashAll_inputs_closed, Z.sub_0_r.
  repeat rewrite <- app_assoc. reflexivity.
Qed.

Lemma hashAll_writer_ext (input : Z) (prevout : TxOut)
      (redeemScript : option Buffer) (b1 b2 : Builder) :
  version b1 = version b2 ->
  locktime b1 = locktime b2 ->
  outputs b1 = outputs b2 ->
  List.length (inputs b1) = List.length (inputs b2) ->
  same_signatory (array_get (inputs b1) input) (array_get (inputs b2) input) ->
  hashAll_writer input prevout redeemScript b1
  = hashAll_writer input prevout redeemScript b2.
Proof.
  intros Hv Hl Ho Hn Hs.
  rewrite !hashAll_writer_closed, Hv, Hl, Ho, Hn.
  do 2 f_equal.
  destruct (array_get (inputs b1) input) as [v1|],
           (array_get (inputs b2) input) as [v2|]; cbn in Hs;
    try contradiction; [|reflexivity].
  destruct Hs as [H1 H2]. rewrite H1, H2. reflexivity.
Qed.

(** An assignment that keeps outpoint and sequence of the input, under
    a sorter that does not see it, does not change what is hashed. *)
Lemma hashAll_writer_after_update (input : Z) (prevout : TxOut)
      (redeemScript : option Buffer) (b : Builder) (f : TxIn -> TxIn)
      (i k : nat) (v : TxIn) :
  (forall x, outpoint (f x) = outpoint x /\ sequence (f x) = sequence x) ->
  (forall x y, inputSorter b (f x) y = inputSorter b x y
               /\ inputSorter b x (f y) = inputSorter b x y) ->
  nth_error (inputs_refs b) i = Some (k, v) ->
  hashAll_writer input prevout redeemScript
    (set_inputs (list_update k f (_inputs b)) b)
  = hashAll_writer input prevout redeemScript b.
Proof.
  intros Hkeep Hblind Hi.
  apply hashAll_writer_ext; try reflexivity.
  - rewrite (inputs_after_update b f i k v Hblind Hi).
    apply list_update_length.
  - rewrite (inputs_after_update b f i k v Hblind Hi).
    unfold array_get. destruct (0 <=? input); [|exact I].
    rewrite list_update_nth.
    destruct (nth_error (inputs b) (Z.to_nat input)) as [u|];
      destruct (Nat.eqb (Z.to_nat input) i); cbn; auto.
Qed.

Lemma array_get_inputs (b : Builder) (i : Z) :
  array_get (inputs b) i = option_map snd (array_get (inputs_refs b) i).
Proof.
  unfold array_get, inputs. destruct (0 <=? i); [|reflexivity].
  apply nth_error_map.
Qed.

Lemma array_get_nth {A} (l : list A) (i : Z) (x : A) :
  array_get l i = Some x -> nth_error l (Z.to_nat i) = Some x.
Proof. unfold array_get. destruct (0 <=? i); [auto | discriminate]. Qed.

Lemma with_scriptSig_keeps (s : Script) (x : TxIn) :
  outpoint (with_scriptSig s x) = outpoint x
  /\ sequence (with_scriptSig s x) = sequence x.
Proof. split; reflexivity. Qed.

Lemma with_witness_keeps (w : list Witness) (x : TxIn) :
  outpoint (with_witness w x) = outpoint x
  /\ sequence (with_witness w x) = sequence x.
Proof. split; reflexivity. Qed.

(** X10.  What [hashAll] hashes: the version, the number of inputs, the
    signatory input alone (its outpoint and sequence, with the committed
    script in place of its scriptSig), the number of outputs, every
    output, the locktime and the sighash type 1.  The other inputs are
    counted but not written, and an index outside the inputs leaves no
    input in the hash at all. *)
Theorem hashAll_signs_one_input (input : Z) (prevout : TxOut)
        (redeemScript : option Buffer) (b : Builder) :
  hashAll input prevout redeemScript b
  = hash256
      (UInt32LE (version b)
       ++ VarInt (Z.of_nat (List.length (inputs b)))
       ++ match array_get (inputs b) input with
          | Some vin =>
              TxIn_serialize
                (TxIn_new (outpoint vin)
                          (Some (commitScript prevout redeemScript))
                          (Some (sequence vin)))
          | None => []
          end
       ++ VarInt (Z.of_nat (List.length (outputs b)))
       ++ List.concat (map TxOut_serialize (outputs b))
       ++ TxLockTime_serialize (locktime b)
       ++ UInt32LE 1).
Proof. unfold hashAll. rewrite hashAll_writer_closed. reflexivity. Qed.

(** X11.  Two builders with the same version, locktime and outputs, as
    many inputs, and the same outpoint and sequence in the signatory
    input give the same hash: the inputs other than the signatory one
    do not enter it. *)
Theorem hashAll_blind_to_other_inputs (input : Z) (prevout : TxOut)
        (redeemScript : option Buffer) (b1 b2 : Builder) :
  version b1 = version b2 ->
  locktime b1 = locktime b2 ->
  outputs b1 = outputs b2 ->
  List.length (inputs b1) = List.length (inputs b2) ->
  same_signatory (array_get (inputs b1) input) (array_get (inputs b2) input) ->
  hashAll input prevout redeemScript b1 = hashAll input prevout redeemScript b2.
Proof.
  intros Hv Hl Ho Hn Hs. unfold hashAll. f_equal.
  apply hashAll_writer_ext; assumption.
Qed.

(** X12.  Neither the scriptSig nor the witness of an input enters the
    hash: after [setScriptSig], and after [setWitness], [hashAll] and
    [sign] return what they returned before, provided the input sorter
    does not look at the property that was set. *)
Theorem signing_ignores_scriptSig_and_witness
        (privateKey : Buffer) (input : Z) (prevout : TxOut)
        (redeemScript : option Buffer) (b : Builder) :
  (blind_to_scriptSig (inputSorter b) ->
   forall index s,
     hashAll input prevout redeemScript (snd (setScriptSig index s b))
     = hashAll input prevout redeemScript b
     /\ sign privateKey input prevout redeemScript (snd (setScriptSig index s b))
        = sign privateKey input prevout redeemScript b)
  /\ (blind_to_witness (inputSorter b) ->
      forall index w,
        hashAll input prevout redeemScript (snd (setWitness index w b))
        = hashAll input prevout redeemScript b
        /\ sign privateKey input prevout redeemScript (snd (setWitness index w b))
           = sign privateKey input prevout redeemScript b).
Proof.
  split.
  - intros Hblind index s.
    assert (Hw : hashAll_writer input prevout redeemScript (snd (setScriptSig index s b))
                 = hashAll_writer input prevout redeemScript b).
    { unfold setScriptSig.
      destruct (array_get (inputs_refs b) 0) as [[k v]|] eqn:Hg; [|reflexivity].
      cbn [snd]. apply array_get_nth in Hg.
      apply (hashAll_writer_after_update input prevout redeemScript b
               (with_scriptSig s) _ k v (with_scriptSig_keeps s) (Hblind s) Hg). }
    unfold sign, hashAll. rewrite Hw. split; reflexivity.
  - intros Hblind index w.
    assert (Hw : hashAll_writer input prevout redeemScript (snd (setWitness index w b))
                 = hashAll_writer input prevout redeemScript b).
    { unfold setWitness.
      destruct (array_get (inputs_refs b) index) as [[k v]|] eqn:Hg; [|reflexivity].
      cbn [snd]. apply array_get_nth in Hg.
      apply (hashAll_writer_after_update input prevout redeemScript b
               (with_witness w) _ k v (with_witness_keeps w) (Hblind w) Hg). }
    unfold sign, hashAll. rewrite Hw. split; reflexivity.
Qed.

(** X13.  [setScriptSig] does not use its index: whatever index is
    passed, it sets the scriptSig of the input that the getter [inputs]
    lists first, and leaves the other inputs, the outputs, the version
    and the locktime alone.  On a builder without inputs it throws a
    TypeError and changes nothing. *)
Theorem setScriptSig_sets_first_input (index : Z) (s : Script) (b : Builder) :
  blind_to_scriptSig (inputSorter b) ->
  match inputs b with
  | [] => setScriptSig index s b = (Throws (undefined_assign "scriptSig"), b)
  | v :: rest =>
      fst (setScriptSig index s b) = Returns tt
      /\ inputs (snd (setScriptSig index s b)) = with_scriptSig s v :: rest
      /\ _outputs (snd (setScriptSig index s b)) = _outputs b
      /\ version (snd (setScriptSig index s b)) = version b
      /\ locktime (snd (setScriptSig index s b)) = locktime b
  end.
Proof.
  intros Hblind.
  pose proof (array_get_inputs b 0) as Hg.
  unfold setScriptSig.
  destruct (array_get (inputs_refs b) 0) as [[k v]|] eqn:Hr; cbn in Hg.
  - destruct (inputs b) as [|v' rest] eqn:Hi; [discriminate Hg|].
    cbn in Hg. inversion Hg; subst v'. cbn [fst snd].
    split; [reflexivity|]. split; [|repeat split].
    apply array_get_nth in Hr.
    rewrite (inputs_after_update b (with_scriptSig s) _ k v (Hblind s) Hr), Hi.
    reflexivity.
  - destruct (inputs b) as [|v' rest]; [reflexivity | discriminate Hg].
Qed.

(** X14.  [setWitness] sets the witness of the input at the given
    position of the getter [inputs] and leaves the others alone; for an
    index outside the inputs (negative, or not below their number) it
    throws a TypeError and changes nothing. *)
Theorem setWitness_by_sorted_index (index : Z) (w : list Witness) (b : Builder) :
  blind_to_witness (inputSorter b) ->
  match array_get (inputs b) index with
  | None => setWitness index w b = (Throws (undefined_assign "witness"), b)
  | Some _ =>
      fst (setWitness index w b) = Returns tt
      /\ inputs (snd (setWitness index w b))
         = list_update (Z.to_nat index) (with_witness w) (inputs b)
      /\ _outputs (snd (setWitness index w b)) = _outputs b
  end.
Proof.
  intros Hblind.
  rewrite (array_get_inputs b index).
  unfold setWitness.
  destruct (array_get (inputs_refs b) index) as [[k v]|] eqn:Hr; cbn [option_map].
  - cbn [fst snd]. split; [reflexivity|]. split; [|reflexivity].
    apply array_get_nth in Hr.
    apply (inputs_after_update b (with_witness w) _ k v (Hblind w) Hr).
  - reflexivity.
Qed.

(** X15.  The getters [inputs] and [outputs] return the inputs and
    outputs that were added, all of them and no other, in the order of
    the sorter; with a sorter that answers 0 everywhere, as the default
    ones do, in the order in which they were added. *)
Theorem getters_permute (b : Builder) :
  Permutation (inputs b) (_inputs b)
  /\ Permutation (outputs b) (_outputs b)
  /\ ((forall x y, inputSorter b x y = 0) -> inputs b = _inputs b)
  /\ ((forall x y, outputSorter b x y = 0) -> outputs b = _outputs b).
Proof.
  split; [|split; [|split]].
  - pose proof (Permutation_map snd (inputs_refs_perm b)) as H.
    rewrite tagged_snd in H. exact H.
  - apply Array_sort_perm.
  - intros Hc. unfold inputs, inputs_refs.
    rewrite Array_sort_const by (intros; apply Hc). apply tagged_snd.
  - intros Hc. apply Array_sort_const. exact Hc.
Qed.

End TxBuilderFacts.

Lemma hashAll_blind_to_other_inputs_witness :
  TxBuilder.inputs demo_builder2 <> TxBuilder.inputs demo_builder2'
  /\ TxBuilder.hashAll 0 demo_prevout None demo_builder2
     = TxBuilder.hashAll 0 demo_prevout None demo_builder2'.
Proof.
  split; [discriminate|].
  apply (hashAll_blind_to_other_inputs (T:=demo_types) (L:=demo_lib));
    try reflexivity.
  split; reflexivity.
Defined.

Lemma signing_ignores_scriptSig_and_witness_witness :
  TxBuilder.sign [x11] 0 demo_prevout None
    (snd (TxBuilder.setScriptSig 1 [TxBuilder.Data [x01]] demo_builder2))
  = TxBuilder.sign [x11] 0 demo_prevout None demo_builder2
  /\ TxBuilder.hashAll 1 demo_prevout None
       (snd (TxBuilder.setWitness 1 [[x02]] demo_builder2))
     = TxBuilder.hashAll 1 demo_prevout None demo_builder2.
Proof.
  split.
  - apply (proj1 (signing_ignores_scriptSig_and_witness (T:=demo_types) (L:=demo_lib) [x11] 0 demo_prevout
                    None demo_builder2)).
    intros s x y. split; reflexivity.
  - apply (proj2 (signing_ignores_scriptSig_and_witness (T:=demo_types) (L:=demo_lib) [x11] 1 demo_prevout
                    None demo_builder2)).
    intros w x y. split; reflexivity.
Defined.

Lemma setScriptSig_sets_first_input_witness :
  TxBuilder.inputs
    (snd (TxBuilder.setScriptSig 1 [TxBuilder.Data [x01]] demo_builder2))
  = [TxBuilder.with_scriptSig [TxBuilder.Data [x01]]
       (TxBuilder.TxIn_new demo_outpoint_a None None);
     TxBuilder.TxIn_new demo_outpoint_b None None].
Proof.
  pose proof (setScriptSig_sets_first_input (T:=demo_types) 1 [TxBuilder.Data [x01]]
                demo_builder2
                (fun s x y => conj eq_refl eq_refl)) as H.
  cbn in H. destruct H as (_ & H & _). exact H.
Defined.

Lemma setWitness_by_sorted_index_witness :
  TxBuilder.inputs (snd (TxBuilder.setWitness 1 [[x02]] demo_builder2))
  = [TxBuilder.TxIn_new demo_outpoint_a None None;
     TxBuilder.with_witness [[x02]] (TxBuilder.TxIn_new demo_outpoint_b None None)].
Proof.
  pose proof (setWitness_by_sorted_index (T:=demo_types) 1 [[x02]] demo_builder2
                (fun w x y => conj eq_refl eq_refl)) as H.
  cbn in H. destruct H as (_ & H & _). exact H.
Defined.

Lemma getters_permute_witness :
  TxBuilder.inputs demo_builder2
  = [TxBuilder.TxIn_new demo_outpoint_a None None;
     TxBuilder.TxIn_new demo_outpoint_b None None]
  /\ TxBuilder.outputs demo_builder2 = [(4999990000, demo_lock)].
Proof.
  destruct (getters_permute (T:=demo_types) demo_builder2) as (_ & _ & Hi & Ho).
  split.
  - apply Hi. reflexivity.
  - apply Ho. reflexivity.
Defined.

(** The edge cases on the demo instance: no input to set a scriptSig
    on, and indices on either side of the inputs. *)
Example setters_out_of_range :
  TxBuilder.setScriptSig 0 [] (TxBuilder.newTxBuilder None None)
  = (Throws (TxBuilder.undefined_assign "scriptSig"),
     TxBuilder.newTxBuilder None None)
  /\ TxBuilder.setWitness 2 [] demo_builder2
     = (Throws (TxBuilder.undefined_assign "witness"), demo_builder2)
  /\ TxBuilder.setWitness (-1) [] demo_builder2
     = (Throws (TxBuilder.undefined_assign "witness"), demo_builder2).
Proof. repeat split. Qed.

(** [setScriptSig] with index 1 on two inputs changes input 0. *)
Example setScriptSig_index_unused :
  TxBuilder.setScriptSig 1 [TxBuilder.OpCode 81] demo_builder2
  = TxBuilder.setScriptSig 0 [TxBuilder.OpCode 81] demo_builder2
  /\ map TxBuilder.scriptSig
       (TxBuilder.inputs
          (snd (TxBuilder.setScriptSig 1 [TxBuilder.OpCode 81] demo_builder2)))
     = [[TxBuilder.OpCode 81]; []].
Proof. split; reflexivity. Qed.
